(** * imap-to-tg: a shallow embedding of [src/index.js]

    The program watches an IMAP mailbox and forwards a formatted summary of
    every unseen message to the Telegram bot API.  This development embeds
    the store of processed UIDs, the Telegram sender, the text helpers, the
    date helper and the poll function, and proves the properties that the
    specification states about them.

    Conventions of the embedding.
    - A JavaScript string is the list of its UTF-16 code units ([jsstring]);
      [length] is the JavaScript [.length].
    - JavaScript numbers that the program uses as integers are [Z] or [N].
    - A value that may be [undefined] or [null] is an [option].
    - The event loop is explicit.  A poll, the settling of a parse, the
      send of a handler and what the handler does after its send are each
      one step of [step]; a schedule is a list of steps, in any order the
      event loop may take them.
    - lowdb and p-retry are libraries, not part of the program; they are
      modelled by the behaviour of the calls the program makes
      ([new Low(adapter, defaultData)], [read], [write];
      [pRetry(fn, { retries, factor })]). *)

From Stdlib Require Import Ascii String Decimal.
From Stdlib Require Import ZArith NArith Bool Arith Lia List.
Import ListNotations.

Local Open Scope Z_scope.

(* ===================================================================== *)
(** ** JavaScript strings *)
(* ===================================================================== *)

Module JS.

(** One UTF-16 code unit. *)
Definition unit16 := N.

Definition jsstring := list unit16.

(** An ASCII literal of the source, as code units. *)
Definition lit (s : string) : jsstring :=
  map N_of_ascii (list_ascii_of_string s).

(** The characters the source names. *)
Definition amp : unit16 := 38%N.
Definition lt : unit16 := 60%N.
Definition gt : unit16 := 62%N.
Definition nl : jsstring := [10%N].
(** ["…"], U+2026, one code unit. *)
Definition ellipsis : jsstring := [8230%N].
(** ["•"], U+2022, one code unit. *)
Definition bullet : jsstring := [8226%N].

Fixpoint uint_units (d : Decimal.uint) : jsstring :=
  match d with
  | Nil => []
  | D0 r => 48%N :: uint_units r
  | D1 r => 49%N :: uint_units r
  | D2 r => 50%N :: uint_units r
  | D3 r => 51%N :: uint_units r
  | D4 r => 52%N :: uint_units r
  | D5 r => 53%N :: uint_units r
  | D6 r => 54%N :: uint_units r
  | D7 r => 55%N :: uint_units r
  | D8 r => 56%N :: uint_units r
  | D9 r => 57%N :: uint_units r
  end.

(** [String(n)] of a non-negative integer, as a template literal prints it. *)
Definition ofN (n : N) : jsstring := uint_units (N.to_uint n).

(** [String(z)] of an integer. *)
Definition ofZ (z : Z) : jsstring :=
  match z with
  | Zneg p => 45%N :: ofN (Npos p)
  | _ => ofN (Z.to_N z)
  end.

(** [a || b] on strings that may be [undefined]: the empty string is falsy. *)
Definition orElse (a : option jsstring) (b : jsstring) : jsstring :=
  match a with
  | Some (c :: r) => c :: r
  | _ => b
  end.

(** [s.slice(0, e)], on a string or an array: a negative [e] counts from
    the end. *)
Definition slice0 {A} (s : list A) (e : Z) : list A :=
  let len := Z.of_nat (length s) in
  let stop := if e <? 0 then Z.max (len + e) 0 else Z.min e len in
  firstn (Z.to_nat stop) s.

(** [s.replace(/c/g, rep)] for a pattern that is the single character [c]. *)
Definition replaceAll (c : unit16) (rep : jsstring) (s : jsstring) : jsstring :=
  flat_map (fun x => if N.eqb x c then rep else [x]) s.

(** [xs.join(sep)]. *)
Fixpoint join (sep : jsstring) (xs : list jsstring) : jsstring :=
  match xs with
  | [] => []
  | [x] => x
  | x :: r => x ++ sep ++ join sep r
  end.

(** [s === t] on strings. *)
Fixpoint eqb (s t : jsstring) : bool :=
  match s, t with
  | [], [] => true
  | a :: s', b :: t' => N.eqb a b && eqb s' t'
  | _, _ => false
  end.

(** [s.startsWith(t)]. *)
Fixpoint startsWith (s t : jsstring) : bool :=
  match t, s with
  | [], _ => true
  | b :: t', a :: s' => N.eqb a b && startsWith s' t'
  | _ :: _, [] => false
  end.

(** [s.includes(t)]: [t] starts at some position of [s]. *)
Fixpoint includesStr (s t : jsstring) : bool :=
  startsWith s t ||
  match s with
  | [] => false
  | _ :: s' => includesStr s' t
  end.

(** [s.endsWith(t)]. *)
Definition endsWith (s t : jsstring) : bool :=
  startsWith (rev s) (rev t).

End JS.

Import JS.

(* ===================================================================== *)
(** ** The text helpers: [escapeHtml], [shorten], the tag stripper *)
(* ===================================================================== *)

(** [escapeHtml] (index.js, lines 84-86): three global replacements, in the
    order of the source. *)
Definition escapeHtml (str : jsstring) : jsstring :=
  replaceAll gt (lit "&gt;")
    (replaceAll lt (lit "&lt;")
       (replaceAll amp (lit "&amp;") str)).

(** [shorten] (index.js, lines 87-91).  [n] is [Number(MAX_BODY_CHARS)]. *)
Definition shorten (s : jsstring) (n : Z) : jsstring :=
  match s with
  | [] => []
  | _ =>
      if Z.of_nat (length s) <=? n then s
      else slice0 s (n - 1) ++ ellipsis
  end.

(** [html.replace(/<[^>]+>/g, "")] (index.js, line 188).  The scanner is
    either outside a tag or it has read a ["<"] and holds, reversed, the
    characters that [[^>]+] has taken so far.  A [">"] closes the tag when
    at least one character was taken; ["<>"] is no match and stays; a ["<"]
    that no [">"] follows is no match either and its text stays. *)
Fixpoint stripFrom (tag : option jsstring) (s : jsstring) : jsstring :=
  match s with
  | [] =>
      match tag with
      | None => []
      | Some held => lt :: rev held
      end
  | c :: r =>
      match tag with
      | None =>
          if N.eqb c lt then stripFrom (Some []) r else c :: stripFrom None r
      | Some [] =>
          if N.eqb c gt then lt :: gt :: stripFrom None r
          else stripFrom (Some [c]) r
      | Some held =>
          if N.eqb c gt then stripFrom None r
          else stripFrom (Some (c :: held)) r
      end
  end.

Definition stripTags (html : jsstring) : jsstring := stripFrom None html.

(** What the claims compare [escapeHtml] with: the entity of one character. *)
Definition entity (c : unit16) : jsstring :=
  if N.eqb c amp then lit "&amp;"
  else if N.eqb c lt then lit "&lt;"
  else if N.eqb c gt then lit "&gt;"
  else [c].

(* ===================================================================== *)
(** ** Results of fallible calls *)
(* ===================================================================== *)

(** A promise that settled: resolved with a value or rejected with an
    error.  A synchronous call that may throw has the same shape. *)
Inductive settled (E A : Type) : Type :=
| Resolved (a : A)
| Rejected (e : E).

Arguments Resolved {E A} a.
Arguments Rejected {E A} e.

Definition andThen {E A B} (x : settled E A) (k : A -> settled E B)
  : settled E B :=
  match x with
  | Resolved a => k a
  | Rejected e => Rejected e
  end.

Notation "'await' x <- c ; k" := (andThen c (fun x => k))
  (at level 10, x name, c at level 100, k at level 200).

(* ===================================================================== *)
(** ** The store of processed UIDs (index.js, lines 37-53) *)
(* ===================================================================== *)

(** A message identifier: the number the server gave, or the string of the
    fallback.  [includes] compares with SameValueZero, so a number never
    equals a string. *)
Inductive Uid : Type :=
| UidNum (n : N)
| UidStr (s : jsstring).

Definition Uid_eqb (a b : Uid) : bool :=
  match a, b with
  | UidNum x, UidNum y => N.eqb x y
  | UidStr x, UidStr y => JS.eqb x y
  | _, _ => false
  end.

(** [arr.includes(u)]. *)
Definition includes (arr : list Uid) (u : Uid) : bool :=
  existsb (Uid_eqb u) arr.

(** [arr.slice(s)] on an array: a negative [s] counts from the end. *)
Definition sliceFrom {A} (arr : list A) (s : Z) : list A :=
  let len := Z.of_nat (length arr) in
  let start := if s <? 0 then Z.max (len + s) 0 else Z.min s len in
  skipn (Z.to_nat start) arr.

(** The JSON object that [db.data] holds.  A field is [None] when the
    object has no such property; [lastEmailUid] is [Some None] when the
    property is there and holds [null]. *)
Record Data : Type := mkData {
  lastEmailUid : option (option N);
  processedUids : option (list Uid)
}.

(** What [JSONFile.read] finds at [DB_FILE]. *)
Inductive FileState : Type :=
| Missing                 (* no such file: the adapter returns null *)
| Corrupt                 (* not JSON: the adapter throws *)
| Holds (d : Data).

(** The [Low] object of lowdb, in the interface the source calls (the one
    of lowdb 6 and later, whose constructor takes the default data):
    [new Low(adapter, defaultData)] keeps the default data, [read] replaces
    it only when the adapter returned something, [write] hands the data to
    the adapter when there is some. *)
Record Low : Type := mkLow {
  file : FileState;
  data : option Data
}.

Definition Low_new (f : FileState) (defaultData : option Data) : Low :=
  {| file := f; data := defaultData |}.

Definition Low_read (db : Low) : settled jsstring Low :=
  match file db with
  | Missing => Resolved db
  | Corrupt => Rejected (lit "SyntaxError")
  | Holds d => Resolved {| file := file db; data := Some d |}
  end.

(** [diskOk] tells whether the file system accepted the write. *)
Definition Low_write (diskOk : bool) (db : Low) : settled jsstring Low :=
  match data db with
  | None => Resolved db
  | Some d =>
      if diskOk then Resolved {| file := Holds d; data := Some d |}
      else Rejected (lit "write failed")
  end.

(** The default data of line 39: [{ lastEmailUid: null }]. *)
Definition defaultData : Data :=
  {| lastEmailUid := Some None; processedUids := None |}.

(** Lines 38-42, with the default data as a parameter:
    [db.data ||= { processedUids: [] }] assigns only when [db.data] is
    falsy, and an object is never falsy. *)
Definition openStoreWith (dflt : option Data) (f : FileState) (diskOk : bool)
  : settled jsstring Low :=
  let db := Low_new f dflt in
  await db <- Low_read db;
  let db :=
    match data db with
    | Some _ => db
    | None =>
        {| file := file db;
           data := Some {| lastEmailUid := None; processedUids := Some [] |} |}
    end in
  Low_write diskOk db.

(** Lines 38-42 as they are. *)
Definition openStore (f : FileState) (diskOk : bool) : settled jsstring Low :=
  openStoreWith (Some defaultData) f diskOk.

(** The sequence [db?.data?.processedUids], [undefined] when a link of the
    chain is missing. *)
Definition seenArray (db : Low) : option (list Uid) :=
  match data db with
  | Some d => processedUids d
  | None => None
  end.

(** [hasProcessed] (lines 44-46): [undefined] when there is no array. *)
Definition hasProcessed (db : Low) (uid : Uid) : option bool :=
  option_map (fun arr => includes arr uid) (seenArray db).

(** The value of [hasProcessed(uid)] as the [if] of line 176 reads it. *)
Definition truthy (v : option bool) : bool :=
  match v with
  | Some b => b
  | None => false
  end.

(** What lines 48-51 do to the array: push, then keep the last 2000 when
    the length exceeds 2000. *)
Definition pushCapped (arr : list Uid) (uid : Uid) : list Uid :=
  let arr := arr ++ [uid] in
  if (2000 <? Z.of_nat (length arr)) then sliceFrom arr (-2000) else arr.

(** The part of [markProcessed] (lines 48-51) that runs before the write.
    Without an array the optional chains do nothing and [undefined > 2000]
    is false. *)
Definition markInMemory (db : Low) (uid : Uid) : Low :=
  match data db with
  | Some d =>
      match processedUids d with
      | Some arr =>
          {| file := file db;
             data := Some {| lastEmailUid := lastEmailUid d;
                             processedUids := Some (pushCapped arr uid) |} |}
      | None => db
      end
  | None => db
  end.

(** [markProcessed] (lines 47-53).  The array is changed before the write is
    awaited, so the change stays in memory when the write is rejected. *)
Definition markProcessed (diskOk : bool) (db : Low) (uid : Uid)
  : Low * settled jsstring unit :=
  let db := markInMemory db uid in
  match Low_write diskOk db with
  | Resolved db' => (db', Resolved tt)
  | Rejected e => (db, Rejected e)
  end.

(** The Seen-Set of the specification, read off the store: the retained
    identifiers, none when the store has no array. *)
Definition seenSet (db : Low) : list Uid :=
  match seenArray db with
  | Some arr => arr
  | None => []
  end.

(* ===================================================================== *)
(** ** The Telegram sender (index.js, lines 55-81) *)
(* ===================================================================== *)

(** The environment values the embedded code reads. *)
Record Config : Type := mkConfig {
  TELEGRAM_BOT_TOKEN : jsstring;
  TELEGRAM_CHAT_ID : jsstring;
  MAX_BODY_CHARS : Z          (* [Number(MAX_BODY_CHARS)], 1500 by default *)
}.

(** The JSON body of the request (lines 58-64). *)
Record Payload : Type := mkPayload {
  chat_id : jsstring;
  text : jsstring;
  parse_mode : jsstring;
  disable_web_page_preview : bool
}.

Record Request : Type := mkRequest {
  url : jsstring;
  body : Payload
}.

(** What one [fetch] of the request comes back with.  A 2xx answer is
    [Http2xx] when its body is JSON, which [res.json()] of line 77 then
    resolves with, and [Http2xxNotJson] when it is not: [res.json()] then
    rejects with a [SyntaxError], whose message is [err]. *)
Inductive Response : Type :=
| Http2xx (json : jsstring)                (* [res.ok], the body parses *)
| Http2xxNotJson (err : jsstring)          (* [res.ok], the body does not *)
| HttpStatus (status : N) (txt : jsstring) (* not [res.ok] *)
| NetworkFailure (msg : jsstring).         (* [fetch] rejected *)

(** The function handed to [pRetry] (lines 67-78), on its response.  The
    promise of [res.json()] is what the function returns, so its rejection
    is a rejection of the function, and [pRetry] calls it again. *)
Definition attempt (r : Response) : settled jsstring jsstring :=
  match r with
  | Http2xx json => Resolved json
  | Http2xxNotJson err => Rejected err
  | HttpStatus status txt =>
      Rejected (lit "Telegram API error " ++ ofN status ++ lit ": " ++ txt)
  | NetworkFailure msg => Rejected msg
  end.

(** The options of p-retry that matter here; [minTimeout] is the delay
    before the first retry (1000 ms unless the caller sets it). *)
Record RetryOptions : Type := mkRetryOptions {
  retries : nat;
  factor : Z;
  minTimeout : Z
}.

(** What a run of [pRetry] does, in order. *)
Inductive RetryStep : Type :=
| Attempt (number : nat)
| Backoff (ms : Z).

(** [pRetry(input, options)]: call [input]; when it rejects and retries are
    left, wait and call it again with the delay multiplied by [factor];
    when none is left, reject with the error of the last call. *)
Fixpoint pRetryFrom {A} (input : nat -> settled jsstring A)
    (fac : Z) (number : nat) (delay : Z) (left : nat)
  : list RetryStep * settled jsstring A :=
  match input number with
  | Resolved a => ([Attempt number], Resolved a)
  | Rejected e =>
      match left with
      | O => ([Attempt number], Rejected e)
      | S left' =>
          let '(steps, r) :=
            pRetryFrom input fac (S number) (delay * fac) left' in
          (Attempt number :: Backoff delay :: steps, r)
      end
  end.

Definition pRetry {A} (input : nat -> settled jsstring A) (o : RetryOptions)
  : list RetryStep * settled jsstring A :=
  pRetryFrom input (factor o) 1%nat (minTimeout o) (retries o).

(** Line 79: [{ retries: 3, factor: 2 }]. *)
Definition sendOptions : RetryOptions :=
  {| retries := 3; factor := 2; minTimeout := 1000 |}.

Definition sendRequest (cfg : Config) (txt : jsstring) : Request :=
  {| url := lit "https://api.telegram.org/bot" ++ TELEGRAM_BOT_TOKEN cfg
              ++ lit "/sendMessage";
     body := {| chat_id := TELEGRAM_CHAT_ID cfg;
                text := txt;
                parse_mode := lit "HTML";
                disable_web_page_preview := true |} |}.

(** [sendTelegramMessage(text)]; [transport k] is the response to the
    [k]-th request of this call. *)
Definition sendTelegramMessage (transport : nat -> Response)
  : list RetryStep * settled jsstring jsstring :=
  pRetry (fun k => attempt (transport k)) sendOptions.

(** The number of requests of a run. *)
Definition attemptsOf (steps : list RetryStep) : nat :=
  length (filter (fun s => match s with Attempt _ => true | _ => false end)
            steps).

(** The delays of a run, in order. *)
Definition backoffsOf (steps : list RetryStep) : list Z :=
  flat_map (fun s => match s with Backoff ms => [ms] | _ => [] end) steps.

(* ===================================================================== *)
(** ** The search date (index.js, lines 120-145) *)
(* ===================================================================== *)

(** A [Date] in local time, as far as [imapDate] reads it: the number of
    the local calendar day, counted from 1 January 1970. *)
Record Date : Type := mkDate { localDay : Z }.

(** The time value of a [Date] lies within 8.64e15 ms, that is 100 000 000
    days, of 1 January 1970 UTC; a time further away is made NaN
    ([TimeClip]), and the date is then invalid. *)
Definition maxDay : Z := 100000000.

(** Year, month (1-12) and day of the month of a day number, in the
    proleptic Gregorian calendar. *)
Definition civil (day : Z) : Z * Z * Z :=
  let z := day + 719468 in
  let era := z / 146097 in
  let doe := z - era * 146097 in
  let yoe := (doe - doe / 1460 + doe / 36524 - doe / 146096) / 365 in
  let doy := doe - (365 * yoe + yoe / 4 - yoe / 100) in
  let mp := (5 * doy + 2) / 153 in
  let d := doy - (153 * mp + 2) / 5 + 1 in
  let m := if mp <? 10 then mp + 3 else mp - 9 in
  let y := yoe + era * 400 + (if m <=? 2 then 1 else 0) in
  (y, m, d).

Definition getFullYear (d : Date) : Z := fst (fst (civil (localDay d))).
(** [getMonth] counts from 0. *)
Definition getMonth (d : Date) : Z := snd (fst (civil (localDay d))) - 1.
Definition getDate (d : Date) : Z := snd (civil (localDay d)).

(** [d.setDate(v)]: day [v] of the month of [d]; a [v] outside the month
    runs over into the neighbouring months.  [None] is the invalid date
    that is left when the day is out of the range.  The bound is the one
    of a date at 00:00 UTC; the time of day and the zone, which a day
    number leaves out, move either end of the range by less than a day. *)
Definition setDate (d : Date) (v : Z) : option Date :=
  let day := localDay d - (getDate d - 1) + (v - 1) in
  if Z.abs day <=? maxDay then Some {| localDay := day |} else None.

Definition monthNames : list jsstring :=
  map lit ["Jan"; "Feb"; "Mar"; "Apr"; "May"; "Jun";
           "Jul"; "Aug"; "Sep"; "Oct"; "Nov"; "Dec"]%string.

(** [imapDate(days)], [now] being the [new Date()] of line 121.  On an
    invalid date [getDate] and [getFullYear] give NaN, and the array of
    the month names, indexed with the NaN of [getMonth], gives
    [undefined]. *)
Definition imapDate (days : Z) (now : Date) : jsstring :=
  match setDate now (getDate now - days) with
  | Some d =>
      let day := getDate d in
      let month := nth (Z.to_nat (getMonth d)) monthNames (lit "undefined") in
      let year := getFullYear d in
      ofZ day ++ lit "-" ++ month ++ lit "-" ++ ofZ year
  | None => lit "NaN" ++ lit "-" ++ lit "undefined" ++ lit "-" ++ lit "NaN"
  end.

(** Line 145, evaluated once when the module is loaded. *)
Definition sinceDateAt (loadTime : Date) : jsstring := imapDate 30 loadTime.

(* ===================================================================== *)
(** ** The formatter (index.js, lines 181-213) *)
(* ===================================================================== *)

(** An attachment as mailparser describes it. *)
Record Attachment : Type := mkAttachment {
  filename : option jsstring;
  contentType : jsstring;
  size : N
}.

(** The fields of the parsed mail that the handler reads:
    [parsed.from?.text], [parsed.subject], [parsed.date.toUTCString()],
    [parsed.text], [parsed.html], [parsed.attachments]. *)
Record ParsedMail : Type := mkParsedMail {
  mail_from : option jsstring;
  mail_subject : option jsstring;
  mail_date : option jsstring;
  mail_text : option jsstring;
  mail_html : option jsstring;
  mail_attachments : list Attachment
}.

Definition fromOf (p : ParsedMail) : jsstring :=
  orElse (mail_from p) (lit "Unknown").

Definition subjectOf (p : ParsedMail) : jsstring :=
  orElse (mail_subject p) (lit "(no subject)").

Definition dateOf (p : ParsedMail) : jsstring :=
  match mail_date p with
  | Some d => d
  | None => []
  end.

(** Lines 187-188: the plain text, or else the HTML without its tags. *)
Definition bodySource (p : ParsedMail) : jsstring :=
  match mail_text p with
  | Some (c :: r) => c :: r
  | _ =>
      match mail_html p with
      | Some (c :: r) => stripTags (c :: r)
      | _ => []
      end
  end.

(** Lines 185-191. *)
Definition bodyText (cfg : Config) (p : ParsedMail) : jsstring :=
  shorten (escapeHtml (bodySource p)) (MAX_BODY_CHARS cfg).

(** Lines 199-202: one line of the attachment summary. *)
Definition attachmentLine (a : Attachment) : jsstring :=
  bullet ++ lit " " ++ orElse (filename a) (lit "unnamed")
    ++ lit " (" ++ contentType a ++ lit ", " ++ ofN (size a) ++ lit " bytes)".

(** Lines 194-205. *)
Definition attachmentsSummary (p : ParsedMail) : jsstring :=
  match mail_attachments p with
  | [] => []
  | atts =>
      (nl ++ lit "Attachments (" ++ ofN (N.of_nat (length atts)) ++ lit "):"
          ++ nl)
        ++ join nl (map attachmentLine atts)
  end.

(** Lines 207-213. *)
Definition formatMessage (cfg : Config) (p : ParsedMail) : jsstring :=
  lit "<b>New Email</b>" ++ nl
    ++ lit "<b>From:</b> " ++ escapeHtml (fromOf p) ++ nl
    ++ lit "<b>Subject:</b> " ++ escapeHtml (subjectOf p) ++ nl
    ++ lit "<b>Date:</b> " ++ escapeHtml (dateOf p) ++ nl ++ nl
    ++ bodyText cfg p ++ attachmentsSummary p.

(* ===================================================================== *)
(** ** The poller (index.js, lines 147-242) and the event loop *)
(* ===================================================================== *)

(** What the module holds once it is loaded. *)
Record Program : Type := mkProgram {
  cfg : Config;
  sinceDate : jsstring
}.

Definition loadProgram (c : Config) (loadTime : Date) : Program :=
  {| cfg := c; sinceDate := sinceDateAt loadTime |}.

(** The criteria of [imap.search]. *)
Inductive Criterion : Type :=
| UNSEEN
| SINCE (date : jsstring).

(** The answer of [imap.search]: an error, or the results ([None] when the
    callback gets no list). *)
Inductive SearchOutcome : Type :=
| SearchError (err : jsstring)
| SearchResults (results : option (list N)).

(** One message of the fetch stream: the UID of its attributes when there
    is one, what [simpleParser] settles with, and the [Date.now()] and
    [Math.random()] the handler would read for a fallback identifier. *)
Record Fetched : Type := mkFetched {
  attrs_uid : option N;
  parsed : settled jsstring ParsedMail;
  clock_ms : N;
  random : jsstring
}.

(** Lines 172-175: [!uid] holds for [undefined] and for [0]. *)
Definition uidOf (m : Fetched) : Uid :=
  match attrs_uid m with
  | Some (Npos p) => UidNum (Npos p)
  | _ => UidStr (lit "fallback-" ++ ofN (clock_ms m) ++ lit "-" ++ random m)
  end.

Definition showUid (u : Uid) : jsstring :=
  match u with
  | UidNum n => ofN n
  | UidStr s => s
  end.

(** What the program does to the outside, in the order it does it.  [Post]
    and [MarkCalled] carry the identifier of the handler that acts. *)
Inductive Obs : Type :=
| Search (criteria : list Criterion)
| Fetch (ids : list N)
| SetTimeout (ms : Z)
| Post (u : Uid) (req : Request) (resp : Response)
| MarkCalled (u : Uid)
| ConsoleLog (line : jsstring)
| ConsoleError (line : jsstring).

(** Where a handler stands between two of its [await]s. *)
Inductive Phase : Type :=
| Waiting                                   (* in the 5 s of line 216 *)
| Sent (r : settled jsstring jsstring)      (* line 217 has settled *)
| Finished.

Record Task : Type := mkTask {
  task_uid : Uid;
  task_subject : jsstring;
  task_message : jsstring;
  task_phase : Phase
}.

(** The store, the fetched messages whose parse has not settled yet, the
    handlers that are under way, and what was observed so far. *)
Record World : Type := mkWorld {
  db : Low;
  parsing : list Fetched;
  tasks : list Task;
  trace : list Obs
}.

Definition observe (o : list Obs) (w : World) : World :=
  {| db := db w; parsing := parsing w; tasks := tasks w;
     trace := trace w ++ o |}.

(** Lines 171-216 and 224-226 for one message whose parse has settled: up
    to the first [await] of the [try] block. *)
Definition examine (prog : Program) (w : World) (m : Fetched) : World :=
  match parsed m with
  | Rejected err =>
      observe [ConsoleError (lit "simpleParser error: " ++ err)] w
  | Resolved p =>
      let uid := uidOf m in
      if truthy (hasProcessed (db w) uid) then w
      else
        {| db := db w;
           parsing := parsing w;
           tasks := tasks w ++
                    [{| task_uid := uid;
                        task_subject := subjectOf p;
                        task_message := formatMessage (cfg prog) p;
                        task_phase := Waiting |}];
           trace := trace w ++ [SetTimeout 5000] |}
  end.

(** [results.slice(0, 50)] of line 159. *)
Definition latest10 (results : list N) : list N := slice0 results 50.

(** [fetchAndProcess] (lines 148-242) up to the point where its promise
    resolves: the search, the fetch, and the messages of the stream handed
    to the parser.  [mailbox] is what the server holds under each UID; the
    stream yields the requested messages in the order of the request.  The
    callback of lines 171-223 runs for each of them when its parse settles
    ([parseSettles]), which the promise does not wait for. *)
Definition fetchAndProcess (prog : Program) (search : SearchOutcome)
    (mailbox : N -> Fetched) (w : World) : World :=
  let w := observe [Search [UNSEEN; SINCE (sinceDate prog)]] w in
  match search with
  | SearchError err =>
      observe [ConsoleError (lit "IMAP search error: " ++ err)] w
  | SearchResults None => w
  | SearchResults (Some []) => w
  | SearchResults (Some results) =>
      let ids := latest10 results in
      {| db := db w;
         parsing := parsing w ++ map mailbox ids;
         tasks := tasks w;
         trace := trace w ++ [Fetch ids] |}
  end.

Definition removeAt {A} (i : nat) (l : list A) : list A :=
  firstn i l ++ skipn (S i) l.

(** The parse of the [i]-th message that is with the parser settles and
    the callback examines it. *)
Definition parseSettles (prog : Program) (i : nat) (w : World) : World :=
  match nth_error (parsing w) i with
  | Some m =>
      examine prog
        {| db := db w; parsing := removeAt i (parsing w);
           tasks := tasks w; trace := trace w |} m
  | None => w
  end.

Definition setPhase (k : nat) (ph : Phase) (ts : list Task) : list Task :=
  match nth_error ts k with
  | Some t =>
      firstn k ts
        ++ {| task_uid := task_uid t; task_subject := task_subject t;
              task_message := task_message t; task_phase := ph |}
        :: skipn (S k) ts
  | None => ts
  end.

Definition retryObs (prog : Program) (t : Task) (transport : nat -> Response)
    (s : RetryStep) : Obs :=
  match s with
  | Attempt k =>
      Post (task_uid t) (sendRequest (cfg prog) (task_message t)) (transport k)
  | Backoff ms => SetTimeout ms
  end.

(** Line 217 for handler [k], once its timer has fired: the whole call of
    [sendTelegramMessage], up to the point where it has settled. *)
Definition timerFires (prog : Program) (k : nat) (transport : nat -> Response)
    (w : World) : World :=
  match nth_error (tasks w) k with
  | Some t =>
      match task_phase t with
      | Waiting =>
          let '(steps, r) := sendTelegramMessage transport in
          {| db := db w;
             parsing := parsing w;
             tasks := setPhase k (Sent r) (tasks w);
             trace := trace w ++ map (retryObs prog t transport) steps |}
      | _ => w
      end
  | None => w
  end.

(** Lines 218-222 for handler [k], once its send has settled. *)
Definition resumes (k : nat) (diskOk : bool) (w : World) : World :=
  match nth_error (tasks w) k with
  | Some t =>
      match task_phase t with
      | Sent (Resolved _) =>
          let '(db', written) := markProcessed diskOk (db w) (task_uid t) in
          {| db := db';
             parsing := parsing w;
             tasks := setPhase k Finished (tasks w);
             trace := trace w ++
               [MarkCalled (task_uid t);
                match written with
                | Resolved _ =>
                    ConsoleLog (lit "Sent uid=" ++ showUid (task_uid t)
                                  ++ lit " subject=" ++ [34%N]
                                  ++ task_subject t ++ [34%N])
                | Rejected e =>
                    ConsoleError (lit "Failed to send to Telegram: " ++ e)
                end] |}
      | Sent (Rejected e) =>
          {| db := db w;
             parsing := parsing w;
             tasks := setPhase k Finished (tasks w);
             trace := trace w ++
               [ConsoleError (lit "Failed to send to Telegram: " ++ e)] |}
      | _ => w
      end
  | None => w
  end.

(** One turn of the event loop: a poll is started (the initial sweep or a
    [mail] event), a parse settles, the 5 s timer of a handler fires and
    its send runs, or a handler goes on after its send. *)
Inductive Step : Type :=
| Poll (search : SearchOutcome) (mailbox : N -> Fetched)
| ParseSettles (i : nat)
| TimerFires (k : nat) (transport : nat -> Response)
| Resumes (k : nat) (diskOk : bool).

Definition step (prog : Program) (w : World) (s : Step) : World :=
  match s with
  | Poll search mailbox => fetchAndProcess prog search mailbox w
  | ParseSettles i => parseSettles prog i w
  | TimerFires k transport => timerFires prog k transport w
  | Resumes k diskOk => resumes k diskOk w
  end.

Definition run (prog : Program) (w : World) (schedule : list Step) : World :=
  fold_left (step prog) schedule w.

(** The world right after the store was opened. *)
Definition startWorld (store : Low) : World :=
  {| db := store; parsing := []; tasks := []; trace := [] |}.

(** One message offered to the poller and handled to the end before
    anything else happens: examined, sent, resumed. *)
Definition offer (prog : Program) (m : Fetched) (transport : nat -> Response)
    (diskOk : bool) (w : World) : World :=
  let k := length (tasks w) in
  let w1 := examine prog w m in
  resumes k diskOk (timerFires prog k transport w1).

(** A schedule in which no poll is started. *)
Definition startsNoPoll (schedule : list Step) : bool :=
  forallb (fun s => match s with Poll _ _ => false | _ => true end) schedule.

(** The requests that went out for an identifier. *)
Definition postsFor (u : Uid) (tr : list Obs) : list Response :=
  flat_map (fun o => match o with
                     | Post u' _ resp => if Uid_eqb u u' then [resp] else []
                     | _ => []
                     end) tr.

(** The calls of [markProcessed] for an identifier. *)
Definition marksFor (u : Uid) (tr : list Obs) : nat :=
  length (filter (fun o => match o with
                           | MarkCalled u' => Uid_eqb u u'
                           | _ => false
                           end) tr).

(** A request for [u] was answered with success somewhere in the trace:
    with a 2xx answer whose body is JSON, on which the send resolves. *)
Definition sentOk (u : Uid) (tr : list Obs) : Prop :=
  exists req json, In (Post u req (Http2xx json)) tr.

(* ===================================================================== *)
(** ** Notions the statements below use *)
(* ===================================================================== *)

(** The last [n] elements of a list, all of it when it is shorter. *)
Definition lastn {A} (n : nat) (l : list A) : list A :=
  skipn (length l - n) l.

(** [markProcessed] called for each identifier of [ids] in turn, as the
    store sees it in memory. *)
Definition markAll (db : Low) (ids : list Uid) : Low :=
  fold_left markInMemory ids db.

(** A store whose data holds the array [arr]. *)
Definition storeWith (f : FileState) (arr : list Uid) : Low :=
  {| file := f;
     data := Some {| lastEmailUid := None; processedUids := Some arr |} |}.

(** The store the program has after lines 38-42 when [DB_FILE] does not
    exist and the write of line 42 goes through. *)
Definition freshStore : Low :=
  {| file := Holds defaultData; data := Some defaultData |}.

(** A transport that answers every request with a failure: a status that
    is not 2xx, or a network failure. *)
Definition alwaysFails (transport : nat -> Response) : Prop :=
  forall k, match transport k with
            | HttpStatus _ _ | NetworkFailure _ => True
            | Http2xx _ | Http2xxNotJson _ => False
            end.

(** The failure detail of a response, as [attempt] throws it. *)
Definition detailOf (r : Response) : jsstring :=
  match attempt r with
  | Rejected e => e
  | Resolved _ => []
  end.

(** The handler that [examine] starts for a message, if it starts one: the
    parse succeeded and the identifier is not found in the store. *)
Definition handlerFor (prog : Program) (store : Low) (m : Fetched)
  : list Task :=
  match parsed m with
  | Rejected _ => []
  | Resolved p =>
      if truthy (hasProcessed store (uidOf m)) then []
      else [{| task_uid := uidOf m;
               task_subject := subjectOf p;
               task_message := formatMessage (cfg prog) p;
               task_phase := Waiting |}]
  end.

(** The first half of the third claim as the specification words it.
    After [earlier], in which a notification for the identifier of [m] was
    answered with success, a poll cycle starts; whatever happens [then],
    at the moment that cycle is about to examine [m] (its parse is one of
    those that can settle next) the identifier is in the Seen-Set.  Only
    the identifier that is about to be examined is asked for, as the
    invariant of the specification has it; the claim, which speaks of the
    examination of any candidate, asks at least this.  It is stated for
    stores that hold an array and for fewer than 2000 steps in all, so
    that neither a missing array nor the cap can be what breaks it. *)
Definition sent_implies_seen_at_next_poll : Prop :=
  forall prog f arr earlier search mailbox meanwhile i m,
    (length earlier + 1 + length meanwhile < 2000)%nat ->
    let sent := run prog (startWorld (storeWith f arr)) earlier in
    sentOk (uidOf m) (trace sent) ->
    let next := run prog sent (Poll search mailbox :: meanwhile) in
    nth_error (parsing next) i = Some m ->
    In (uidOf m) (seenSet (db next)).

(** The ninth claim as the specification words it: the search of a poll
    asks for the messages since 30 days before the time of that poll. *)
Definition search_window_relative_to_poll : Prop :=
  forall c loadTime pollTime search mailbox w,
    In (Search [UNSEEN; SINCE (imapDate 30 pollTime)])
       (trace (fetchAndProcess (loadProgram c loadTime) search mailbox w)).

(** What every reachable world satisfies, [store] being the store the
    program started with: an identifier is in the array only if it was
    there from the start or a request for it was answered with success, and
    a handler is past a successful send only if such an answer is in the
    trace. *)
Definition marked_after_sent (store : Low) (w : World) : Prop :=
  (forall u, In u (seenSet (db w)) ->
             In u (seenSet store) \/ sentOk u (trace w))
  /\ (forall t json, In t (tasks w) ->
                     task_phase t = Sent (Resolved json) ->
                     sentOk (task_uid t) (trace w)).

(** Sample data for the closed statements. *)
Module Sample.

Definition config : Config :=
  {| TELEGRAM_BOT_TOKEN := lit "123:abc";
     TELEGRAM_CHAT_ID := lit "42";
     MAX_BODY_CHARS := 1500 |}.

(** Loaded on 1 January 2026. *)
Definition program : Program := loadProgram config {| localDay := 20454 |}.

Definition mail : ParsedMail :=
  {| mail_from := Some (lit "Ann <ann@example.org>");
     mail_subject := Some (lit "R&D");
     mail_date := Some (lit "Thu, 01 Jan 2026 10:00:00 GMT");
     mail_text := Some (lit "1 < 2");
     mail_html := None;
     mail_attachments :=
       [ {| filename := Some (lit "a<b.txt");
            contentType := lit "text/plain";
            size := 12%N |};
         {| filename := None; contentType := lit "image/png"; size := 0%N |} ]
  |}.

Definition mailbox (id : N) : Fetched :=
  {| attrs_uid := Some id;
     parsed := Resolved mail;
     clock_ms := 1767261600000%N;
     random := lit "0.25" |}.

Definition accepts (k : nat) : Response := Http2xx (lit "{}").

Definition refuses (k : nat) : Response :=
  HttpStatus 500%N (lit "down " ++ ofN (N.of_nat k)).

End Sample.

(* ===================================================================== *)
(** ** Notions the further properties use *)
(* ===================================================================== *)

(** [markProcessed] called for each identifier of [calls] in turn, each
    call with its own outcome of the write. *)
Definition markEach (db : Low) (calls : list (Uid * bool)) : Low :=
  fold_left (fun d c => fst (markProcessed (snd c) d (fst c))) calls db.

(** A store as a start or a successful write leaves it: the file holds
    what is in memory. *)
Definition inSync (db : Low) : Prop :=
  exists d, file db = Holds d /\ data db = Some d.

(** A response on which the attempt rejects: a status that is not 2xx, a
    network failure, or a 2xx answer whose body is not JSON. *)
Definition failed (r : Response) : Prop :=
  exists e, attempt r = Rejected e.

(** The requests of a trace, whatever identifier they are for. *)
Definition requestsIn (tr : list Obs) : nat :=
  length (filter (fun o => match o with Post _ _ _ => true | _ => false end)
            tr).

(** The calls of [markProcessed] of a trace. *)
Definition markCallsIn (tr : list Obs) : nat :=
  length (filter (fun o => match o with MarkCalled _ => true | _ => false end)
            tr).

(** The handlers whose phase satisfies [f]. *)
Definition countPhase (f : Phase -> bool) (ts : list Task) : nat :=
  length (filter (fun t => f (task_phase t)) ts).

Definition isWaiting (ph : Phase) : bool :=
  match ph with Waiting => true | _ => false end.

Definition isFinished (ph : Phase) : bool :=
  match ph with Finished => true | _ => false end.

(** The balance every step keeps: four requests at most for each handler
    that is past its wait, one call of [markProcessed] at most for each
    handler that has finished. *)
Definition balanced (w : World) : Prop :=
  (requestsIn (trace w) + 4 * countPhase isWaiting (tasks w)
   <= 4 * length (tasks w))%nat
  /\ (markCallsIn (trace w) <= countPhase isFinished (tasks w))%nat.

(** The month (1-12) and the day of the month that [civil] computes, as
    they depend on the day of the 400-year era alone. *)
Definition monthDayOfEra (doe : Z) : Z * Z :=
  let yoe := (doe - doe / 1460 + doe / 36524 - doe / 146096) / 365 in
  let doy := doe - (365 * yoe + yoe / 4 - yoe / 100) in
  let mp := (5 * doy + 2) / 153 in
  let d := doy - (153 * mp + 2) / 5 + 1 in
  let m := if mp <? 10 then mp + 3 else mp - 9 in
  (m, d).

(** A month from 1 to 12 and a day from 1 to 31. *)
Definition monthDayValid (md : Z * Z) : bool :=
  (1 <=? fst md) && (fst md <=? 12) && (1 <=? snd md) && (snd md <=? 31).

(** One step of a scan that checks [f] on 0, 1, 2, ... in turn. *)
Definition scanStep (f : Z -> bool) (st : Z * bool) : Z * bool :=
  (fst st + 1, snd st && f (fst st)).

(** A day that is within the range of a [Date] at every time of day and
    in every zone. *)
Definition withinRange (day : Z) : Prop := Z.abs day <= maxDay - 2.

(** A schedule in which no handler resumes after its send. *)
Definition resumesNone (schedule : list Step) : bool :=
  forallb (fun s => match s with Resumes _ _ => false | _ => true end)
    schedule.

(** A step that does not act on handler [j]. *)
Definition sparesHandler (j : nat) (s : Step) : Prop :=
  match s with
  | TimerFires k _ => k <> j
  | Resumes k _ => k <> j
  | _ => True
  end.

(* ===================================================================== *)
(** ** The connection supervisor (index.js, lines 244-310) *)
(* ===================================================================== *)

Module Supervisor.

(** The events of an [Imap] object that the program listens to. *)
Inductive EventName : Type := OnReady | OnError | OnEnd | OnMail.

Definition EventName_eqb (a b : EventName) : bool :=
  match a, b with
  | OnReady, OnReady | OnError, OnError | OnEnd, OnEnd | OnMail, OnMail => true
  | _, _ => false
  end.

(** An event as the object emits it; an [error] carries its message. *)
Inductive Emitted : Type :=
| ready
| error (err : jsstring)
| ended
| mail.

Definition nameOf (e : Emitted) : EventName :=
  match e with
  | ready => OnReady
  | error _ => OnError
  | ended => OnEnd
  | mail => OnMail
  end.

(** The functions the program registers as listeners.  [run] numbers the
    calls of [start], [attempt] the calls that [pRetry] makes of the
    function of lines 289-297 within one of them. *)
Inductive Callback : Type :=
| ReadyCallback                          (* lines 248-275 *)
| ErrorCallback                          (* lines 277-279 *)
| EndCallback                            (* lines 281-284 *)
| ConnectResolve (run attempt : nat)     (* [res], line 292 *)
| ConnectReject (run attempt : nat)      (* lines 293-296 *)
| MailCallback.                          (* lines 267-274 *)

(** A listener: [once] is true for [imap.once], false for [imap.on]. *)
Record Listener : Type := mkListener {
  event : EventName;
  once : bool;
  callback : Callback
}.

(** Where the [pRetry] of one call of [start] stands: in its [attempt]-th
    call, with the errors of the earlier ones; waiting for the timer that
    starts the next call; resolved; rejected. *)
Inductive Connecting : Type :=
| Attempting (attempt : nat) (errors : list jsstring)
| BackingOff (attempt : nat) (errors : list jsstring)
| Connected
| GaveUp.

Inductive Timer : Type :=
| RestartIn (ms : Z)                (* [setTimeout(() => start(), ms)] *)
| RetryIn (run : nat) (ms : Z).     (* the wait of [pRetry] *)

(** Where a call of the ready callback stands between its [await]s. *)
Inductive Await : Type :=
| AwaitingOpenBox
| AwaitingSweep
| Returned.

(** What the supervisor does to the outside. *)
Inductive Act : Type :=
| NewImap
| Connect (session : nat)
| OpenBox (session : nat) (name : jsstring)
| EndSession (session : nat)
| StartPoll (session : nat)
| SetTimer (ms : Z)
| Log (line : jsstring)
| Warn (line : jsstring)
| LogError (line : jsstring)
| Unhandled (session : nat) (err : jsstring).

(** The [Imap] objects made so far, each with its listeners in the order
    of registration; [imap], the one the global variable holds; the calls
    of [start]; the timers ([None] once fired); the calls of the ready
    callback; what was done; and whether an [error] event found no
    listener, which makes [emit] throw. *)
Record State : Type := mkState {
  sessions : list (list Listener);
  imap : nat;
  runs : list Connecting;
  timers : list (option Timer);
  awaits : list Await;
  acts : list Act;
  thrown : bool
}.

Definition setNth {A} (i : nat) (x : A) (l : list A) : list A :=
  match nth_error l i with
  | Some _ => firstn i l ++ x :: skipn (S i) l
  | None => l
  end.

Section Reactions.

(** [MAILBOX], and the error that a [pRetry] which gives up rejects with,
    as p-retry picks it from the errors of the calls. *)
Variable MAILBOX : jsstring.
Variable surfaced : list jsstring -> jsstring.

Definition doing (a : list Act) (st : State) : State :=
  {| sessions := sessions st; imap := imap st; runs := runs st;
     timers := timers st; awaits := awaits st; acts := acts st ++ a;
     thrown := thrown st |}.

(** [imap.once(...)] and [imap.on(...)]: on the object the global variable
    holds at that moment. *)
Definition listen (ls : list Listener) (st : State) : State :=
  {| sessions := setNth (imap st)
                   (nth (imap st) (sessions st) [] ++ ls) (sessions st);
     imap := imap st; runs := runs st; timers := timers st;
     awaits := awaits st; acts := acts st; thrown := thrown st |}.

Definition setRun (r : nat) (c : Connecting) (st : State) : State :=
  {| sessions := sessions st; imap := imap st;
     runs := setNth r c (runs st);
     timers := timers st; awaits := awaits st; acts := acts st;
     thrown := thrown st |}.

Definition setTimer (t : Timer) (ms : Z) (st : State) : State :=
  {| sessions := sessions st; imap := imap st; runs := runs st;
     timers := timers st ++ [Some t]; awaits := awaits st;
     acts := acts st ++ [SetTimer ms]; thrown := thrown st |}.

Definition setAwait (i : nat) (a : Await) (st : State) : State :=
  {| sessions := sessions st; imap := imap st; runs := runs st;
     timers := timers st; awaits := setNth i a (awaits st);
     acts := acts st; thrown := thrown st |}.

(** Lines 289-297, the function that [pRetry] calls: connect, and settle
    on the first [ready] or [error]. *)
Definition connectAttempt (r k : nat) (errors : list jsstring) (st : State)
  : State :=
  listen [ {| event := OnReady; once := true; callback := ConnectResolve r k |};
           {| event := OnError; once := true; callback := ConnectReject r k |} ]
    (doing [Connect (imap st)] (setRun r (Attempting k errors) st)).

(** [start] (lines 245-305), up to its [await]. *)
Definition start (st : State) : State :=
  let s := length (sessions st) in
  let r := length (runs st) in
  let st :=
    {| sessions := sessions st ++
         [[ {| event := OnReady; once := true; callback := ReadyCallback |};
            {| event := OnError; once := true; callback := ErrorCallback |};
            {| event := OnEnd; once := true; callback := EndCallback |} ]];
       imap := s;
       runs := runs st ++ [Attempting 1 []];
       timers := timers st; awaits := awaits st;
       acts := acts st ++ [NewImap]; thrown := thrown st |} in
  connectAttempt r 1 [] st.

(** The wait of [pRetry] after its [k]-th call failed:
    [{ retries: 3, factor: 2 }], 1000 ms to begin with. *)
Definition retryDelay (k : nat) : Z := 1000 * 2 ^ (Z.of_nat k - 1).

(** One listener called with what was emitted. *)
Definition call (e : Emitted) (st : State) (cb : Callback) : State :=
  match cb with
  | ReadyCallback =>
      let st := doing [Log (lit "IMAP ready. Opening mailbox...");
                       OpenBox (imap st) MAILBOX] st in
      {| sessions := sessions st; imap := imap st; runs := runs st;
         timers := timers st; awaits := awaits st ++ [AwaitingOpenBox];
         acts := acts st; thrown := thrown st |}
  | ErrorCallback =>
      match e with
      | error err => doing [LogError (lit "IMAP error: " ++ err)] st
      | _ => st
      end
  | EndCallback =>
      setTimer (RestartIn 5000) 5000
        (doing [Warn (lit "IMAP connection ended " ++ [8212%N]
                      ++ lit " will reconnect in 5s")] st)
  | ConnectResolve r k =>
      match nth_error (runs st) r with
      | Some (Attempting k' _) =>
          if Nat.eqb k k' then setRun r Connected st else st
      | _ => st
      end
  | ConnectReject r k =>
      match nth_error (runs st) r, e with
      | Some (Attempting k' errors), error err =>
          if Nat.eqb k k' then
            if (k <=? 3)%nat then
              setTimer (RetryIn r (retryDelay k)) (retryDelay k)
                (setRun r (BackingOff k (errors ++ [err])) st)
            else
              setTimer (RestartIn 10000) 10000
                (doing [LogError (lit "Failed initial IMAP connect: "
                                    ++ surfaced (errors ++ [err]))]
                   (setRun r GaveUp st))
          else st
      | _, _ => st
      end
  | MailCallback =>
      doing [Log (lit "mail event - checking unseen...");
             StartPoll (imap st)] st
  end.

Definition hears (e : Emitted) (l : Listener) : bool :=
  EventName_eqb (event l) (nameOf e).

(** [emit] on the object [s]: the listeners of the event are called in the
    order of their registration, those registered with [once] are taken
    off; an [error] that no listener hears is thrown. *)
Definition emit (s : nat) (e : Emitted) (st : State) : State :=
  let ls := nth s (sessions st) [] in
  let heard := filter (hears e) ls in
  let kept := filter (fun l => negb (hears e l && once l)) ls in
  let st := {| sessions := setNth s kept (sessions st); imap := imap st;
               runs := runs st; timers := timers st; awaits := awaits st;
               acts := acts st; thrown := thrown st |} in
  match e, heard with
  | error err, [] =>
      {| sessions := sessions st; imap := imap st; runs := runs st;
         timers := timers st; awaits := awaits st;
         acts := acts st ++ [Unhandled s err]; thrown := true |}
  | _, _ => fold_left (call e) (map callback heard) st
  end.

(** A timer fires. *)
Definition elapse (i : nat) (st : State) : State :=
  match nth_error (timers st) i with
  | Some (Some t) =>
      let st := {| sessions := sessions st; imap := imap st; runs := runs st;
                   timers := setNth i None (timers st); awaits := awaits st;
                   acts := acts st; thrown := thrown st |} in
      match t with
      | RestartIn _ => start st
      | RetryIn r _ =>
          match nth_error (runs st) r with
          | Some (BackingOff k errors) => connectAttempt r (S k) errors st
          | _ => st
          end
      end
  | _ => st
  end.

(** The callback of [openBox] (lines 113-116) comes, with an error or
    without, and the ready callback goes on (lines 251-261). *)
Definition openBoxAnswers (i : nat) (err : option jsstring) (st : State)
  : State :=
  match nth_error (awaits st) i with
  | Some AwaitingOpenBox =>
      match err with
      | None =>
          setAwait i AwaitingSweep
            (doing [Log (lit "Opened " ++ MAILBOX
                           ++ lit ". Listening for new mail...");
                    StartPoll (imap st)] st)
      | Some e =>
          setAwait i Returned
            (doing [LogError (lit "Open box failed: " ++ e);
                    EndSession (imap st)] st)
      end
  | _ => st
  end.

(** The initial sweep resolves and the ready callback registers the
    listener for [mail] (lines 266-274). *)
Definition sweepResolves (i : nat) (st : State) : State :=
  match nth_error (awaits st) i with
  | Some AwaitingSweep =>
      setAwait i Returned
        (listen [ {| event := OnMail; once := false;
                     callback := MailCallback |} ] st)
  | _ => st
  end.

(** What can happen next. *)
Inductive Input : Type :=
| Emits (s : nat) (e : Emitted)
| Elapses (i : nat)
| OpenBoxAnswers (i : nat) (err : option jsstring)
| SweepResolves (i : nat).

(** One reaction; after a thrown [error] nothing reacts any more. *)
Definition react (st : State) (i : Input) : State :=
  if thrown st then st
  else
    match i with
    | Emits s e => emit s e st
    | Elapses k => elapse k st
    | OpenBoxAnswers k err => openBoxAnswers k err st
    | SweepResolves k => sweepResolves k st
    end.

(** Line 307: the program calls [start] once. *)
Definition boot : State :=
  start {| sessions := []; imap := 0; runs := []; timers := [];
           awaits := []; acts := []; thrown := false |}.

Definition reach (inputs : list Input) : State :=
  fold_left react inputs boot.

End Reactions.

(** Counting in what was done and in what is registered. *)
Definition connects (a : list Act) : nat :=
  length (filter (fun x => match x with Connect _ => true | _ => false end) a).

Definition timersOf (ms : Z) (a : list Act) : nat :=
  length (filter (fun x => match x with
                           | SetTimer m => Z.eqb m ms
                           | _ => false
                           end) a).

Definition polls (a : list Act) : nat :=
  length (filter (fun x => match x with StartPoll _ => true | _ => false end)
            a).

Definition openings (a : list Act) : nat :=
  length (filter (fun x => match x with OpenBox _ _ => true | _ => false end)
            a).

(** The sum of a measure over a list. *)
Definition total {A} (mu : A -> nat) (l : list A) : nat :=
  list_sum (map mu l).

Definition isEndCallback (l : Listener) : bool :=
  match callback l with EndCallback => true | _ => false end.

(** The end callbacks that are registered on an object. *)
Definition endCallbacks (ls : list Listener) : nat :=
  length (filter isEndCallback ls).

(** A bound on the calls of the connect function that a [pRetry] has made
    so far. *)
Definition attemptBound (c : Connecting) : nat :=
  match c with
  | Attempting k _ => k
  | BackingOff k _ => k
  | Connected => 4
  | GaveUp => 4
  end.

Definition gaveUp (c : Connecting) : nat :=
  match c with GaveUp => 1 | _ => 0 end.

(** A [pRetry] is in its first to fourth call, or waits after its first
    to third. *)
Definition inBounds (c : Connecting) : Prop :=
  match c with
  | Attempting k _ => (1 <= k <= 4)%nat
  | BackingOff k _ => (1 <= k <= 3)%nat
  | _ => True
  end.

(** Each callback is registered for its event and in its way: all with
    [once] but the mail callback. *)
Definition registeredAsWritten (l : Listener) : bool :=
  match callback l with
  | ReadyCallback | ConnectResolve _ _ =>
      EventName_eqb (event l) OnReady && once l
  | ErrorCallback | ConnectReject _ _ =>
      EventName_eqb (event l) OnError && once l
  | EndCallback => EventName_eqb (event l) OnEnd && once l
  | MailCallback => EventName_eqb (event l) OnMail && negb (once l)
  end.

(** What every state the supervisor reaches satisfies, and in the middle
    of a reaction satisfies but for [d] end callbacks taken off whose
    timers are not set yet, [g] runs that gave up and have not set their
    timer yet, and [c] connect calls that are due. *)
Record SoundBut (d g c : nat) (st : State) : Prop := mkSound {
  sound_listeners :
    Forall (Forall (fun l => registeredAsWritten l = true)) (sessions st);
  sound_imap : (imap st < length (sessions st))%nat;
  sound_runs : Forall inBounds (runs st);
  sound_sessions : length (sessions st) = length (runs st);
  sound_ends :
    (timersOf 5000 (acts st) + total endCallbacks (sessions st) + d
     = length (sessions st))%nat;
  sound_gaveUp :
    (timersOf 10000 (acts st) + g = total gaveUp (runs st))%nat;
  sound_connects :
    (connects (acts st) + c <= total attemptBound (runs st))%nat
}.

Definition Sound (st : State) : Prop := SoundBut 0 0 0 st.

End Supervisor.

(* ===================================================================== *)
(** * Properties *)
(* ===================================================================== *)

(** ** Samples of the helpers *)

Example escapeHtml_sample :
  escapeHtml (lit "a<b>&c") = lit "a&lt;b&gt;&amp;c".
Proof. reflexivity. Qed.

Example stripTags_sample :
  stripTags (lit "<p>a<>b<br/>c<d") = lit "a<>bc<d".
Proof. reflexivity. Qed.

Example stripTags_unclosed :
  stripTags (lit "1 < 2 and <b>3 > 2</b><") = lit "1 3 > 2<".
Proof. reflexivity. Qed.

Example shorten_sample :
  shorten (lit "abcdef") 4 = lit "abc" ++ ellipsis.
Proof. reflexivity. Qed.

(** Below a maximum of 1 the end of the slice is negative and counts from
    the end of the text. *)
Example shorten_at_zero :
  shorten (lit "ab") 0 = lit "a" ++ ellipsis.
Proof. reflexivity. Qed.

Example imapDate_sample :
  imapDate 30 {| localDay := 20454 |} = lit "2-Dec-2025".
Proof. reflexivity. Qed.

Example civil_samples :
  civil 0 = (1970, 1, 1) /\ civil 11016 = (2000, 2, 29)
  /\ civil (-1) = (1969, 12, 31) /\ civil 20454 = (2026, 1, 1).
Proof. repeat split; reflexivity. Qed.

(** ** Escaping *)

Section Escaping.

Lemma flat_map_flat_map {A B C} (f : A -> list B) (g : B -> list C) l :
  flat_map g (flat_map f l) = flat_map (fun x => flat_map g (f x)) l.
Proof.
  induction l as [|a l IH]; simpl; [reflexivity|].
  now rewrite flat_map_app, IH.
Qed.

(** The three passes, seen on one character. *)
Lemma three_passes_on_one (x : unit16) :
  replaceAll gt (lit "&gt;")
    (replaceAll lt (lit "&lt;")
       (if N.eqb x amp then lit "&amp;" else [x])) = entity x.
Proof.
  unfold entity.
  destruct (N.eqb x amp) eqn:Ea; [reflexivity|].
  unfold replaceAll; simpl.
  destruct (N.eqb x lt) eqn:El; [reflexivity|].
  simpl. destruct (N.eqb x gt) eqn:Eg; reflexivity.
Qed.

Lemma escapeHtml_entity (s : jsstring) : escapeHtml s = flat_map entity s.
Proof.
  unfold escapeHtml.
  unfold replaceAll at 3.
  unfold replaceAll at 2. rewrite flat_map_flat_map.
  unfold replaceAll at 1. rewrite flat_map_flat_map.
  apply flat_map_ext. intro x.
  exact (three_passes_on_one x).
Qed.

Lemma escapeHtml_app (s t : jsstring) :
  escapeHtml (s ++ t) = escapeHtml s ++ escapeHtml t.
Proof. rewrite !escapeHtml_entity. apply flat_map_app. Qed.

End Escaping.

(** C6. [escapeHtml] turns every [&] into [&amp;], every [<] into [&lt;]
    and every [>] into [&gt;] and leaves every other character as it is
    (it is the character-by-character map [entity]); the formatted message
    embeds the sender, the subject and the body text only after that
    escaping. *)
Theorem C6_escaping_is_characterwise (cfg : Config) (p : ParsedMail)
    (s : jsstring) :
  escapeHtml s = flat_map entity s
  /\ entity amp = lit "&amp;" /\ entity lt = lit "&lt;"
  /\ entity gt = lit "&gt;"
  /\ formatMessage cfg p =
       lit "<b>New Email</b>" ++ nl
         ++ lit "<b>From:</b> " ++ flat_map entity (fromOf p) ++ nl
         ++ lit "<b>Subject:</b> " ++ flat_map entity (subjectOf p) ++ nl
         ++ lit "<b>Date:</b> " ++ flat_map entity (dateOf p) ++ nl ++ nl
         ++ shorten (flat_map entity (bodySource p)) (MAX_BODY_CHARS cfg)
         ++ attachmentsSummary p.
Proof.
  split; [apply escapeHtml_entity|].
  repeat (split; [reflexivity|]).
  unfold formatMessage, bodyText.
  now rewrite !escapeHtml_entity.
Qed.

(** Every character other than the three is its own entity. *)
Lemma entity_other (c : unit16) :
  c <> amp -> c <> lt -> c <> gt -> entity c = [c].
Proof.
  intros Ha Hl Hg. unfold entity.
  apply N.eqb_neq in Ha, Hl, Hg. now rewrite Ha, Hl, Hg.
Qed.

(** ** Truncation *)

Section Truncation.

Lemma slice0_within {A} (s : list A) (e : Z) :
  0 <= e <= Z.of_nat (length s) ->
  slice0 s e = firstn (Z.to_nat e) s /\ Z.of_nat (length (slice0 s e)) = e.
Proof.
  intros He. unfold slice0.
  destruct (Z.ltb_spec e 0) as [Hneg|_]; [lia|].
  rewrite Z.min_l by lia. split; [reflexivity|].
  rewrite length_firstn. lia.
Qed.

Lemma shorten_long (s : jsstring) (n : Z) :
  1 <= n -> n < Z.of_nat (length s) ->
  shorten s n = firstn (Z.to_nat (n - 1)) s ++ ellipsis.
Proof.
  intros Hn Hlong. unfold shorten.
  destruct s as [|c r]; [simpl in Hlong; lia|].
  destruct (Z.leb_spec (Z.of_nat (length (c :: r))) n) as [Hle|_]; [lia|].
  destruct (slice0_within (c :: r) (n - 1)) as [-> _]; [lia|reflexivity].
Qed.

Lemma shorten_short (s : jsstring) (n : Z) :
  Z.of_nat (length s) <= n -> shorten s n = s.
Proof.
  intros Hle. unfold shorten.
  destruct s as [|c r]; [reflexivity|].
  destruct (Z.leb_spec (Z.of_nat (length (c :: r))) n); [reflexivity|lia].
Qed.

End Truncation.

(** C7. With a maximum of at least one character: a body text whose
    escaped form is longer than the maximum gives an excerpt of exactly the
    maximum length that ends with the ellipsis; one whose escaped form is
    within the maximum is embedded as it is. *)
Theorem C7_excerpt_is_capped (cfg : Config) (p : ParsedMail) :
  1 <= MAX_BODY_CHARS cfg ->
  (MAX_BODY_CHARS cfg < Z.of_nat (length (escapeHtml (bodySource p))) ->
     Z.of_nat (length (bodyText cfg p)) = MAX_BODY_CHARS cfg
     /\ endsWith (bodyText cfg p) ellipsis = true
     /\ bodyText cfg p =
          firstn (Z.to_nat (MAX_BODY_CHARS cfg - 1))
            (escapeHtml (bodySource p)) ++ ellipsis)
  /\ (Z.of_nat (length (escapeHtml (bodySource p))) <= MAX_BODY_CHARS cfg ->
        bodyText cfg p = escapeHtml (bodySource p)).
Proof.
  intros Hn. unfold bodyText. split.
  - intros Hlong. rewrite (shorten_long _ _ Hn Hlong).
    repeat split.
    + rewrite length_app, length_firstn. simpl. lia.
    + unfold endsWith. rewrite rev_app_distr. simpl.
      now destruct (rev _).
  - apply shorten_short.
Qed.

(** The seventh claim at a maximum of 4: ["a<bcd"] escapes to 8 characters
    and is cut to 4, ["abc"] is kept. *)
Lemma C7_excerpt_is_capped_witness :
  let cfg := {| TELEGRAM_BOT_TOKEN := []; TELEGRAM_CHAT_ID := [];
                MAX_BODY_CHARS := 4 |} in
  let long := {| mail_from := None; mail_subject := None; mail_date := None;
                 mail_text := Some (lit "a<bcd"); mail_html := None;
                 mail_attachments := [] |} in
  let short := {| mail_from := None; mail_subject := None; mail_date := None;
                  mail_text := Some (lit "abc"); mail_html := None;
                  mail_attachments := [] |} in
  (Z.of_nat (length (bodyText cfg long)) = 4
   /\ endsWith (bodyText cfg long) ellipsis = true
   /\ bodyText cfg long = lit "a&l" ++ ellipsis)
  /\ bodyText cfg short = lit "abc".
Proof.
  intros cfg long short. split.
  - apply (C7_excerpt_is_capped cfg long); [simpl; lia|vm_compute; reflexivity].
  - apply (C7_excerpt_is_capped cfg short); [simpl; lia|vm_compute; discriminate].
Defined.

(** ** The store *)

Section Store.

Lemma JS_eqb_eq (s t : jsstring) : JS.eqb s t = true <-> s = t.
Proof.
  revert t. induction s as [|a s IH]; intros [|b t]; simpl;
    try (split; [discriminate|discriminate]); [tauto|].
  rewrite andb_true_iff, N.eqb_eq, IH.
  split; [intros [-> ->]; reflexivity|intros [= -> ->]; tauto].
Qed.

Lemma Uid_eqb_eq (a b : Uid) : Uid_eqb a b = true <-> a = b.
Proof.
  destruct a as [x|x], b as [y|y]; simpl;
    try (split; [discriminate|discriminate]).
  - rewrite N.eqb_eq. split; [now intros ->|now intros [= ->]].
  - rewrite JS_eqb_eq. split; [now intros ->|now intros [= ->]].
Qed.

Lemma Uid_eqb_refl (a : Uid) : Uid_eqb a a = true.
Proof. now apply Uid_eqb_eq. Qed.

Lemma includes_In (arr : list Uid) (u : Uid) :
  includes arr u = true <-> In u arr.
Proof.
  unfold includes. rewrite existsb_exists. split.
  - intros (x & Hin & Heq). apply Uid_eqb_eq in Heq. now subst.
  - intros Hin. exists u. split; [assumption|apply Uid_eqb_refl].
Qed.

Lemma In_skipn_In {A} (n : nat) (l : list A) (x : A) :
  In x (skipn n l) -> In x l.
Proof.
  intros H. rewrite <- (firstn_skipn n l). apply in_or_app. now right.
Qed.

Lemma lastn_all {A} (n : nat) (l : list A) :
  (length l <= n)%nat -> lastn n l = l.
Proof.
  intros H. unfold lastn. now replace (length l - n)%nat with 0%nat by lia.
Qed.

Lemma lastn_length {A} (n : nat) (l : list A) :
  length (lastn n l) = Nat.min n (length l).
Proof. unfold lastn. rewrite length_skipn. lia. Qed.

Lemma lastn_app_lastn {A} (n : nat) (l r : list A) :
  lastn n (lastn n l ++ r) = lastn n (l ++ r).
Proof.
  unfold lastn at 2.
  assert (Hk : (length l - n <= length l)%nat) by lia.
  remember (length l - n)%nat as k eqn:Ek.
  assert (Hsk : skipn k l ++ r = skipn k (l ++ r)).
  { rewrite skipn_app. replace (k - length l)%nat with 0%nat by lia.
    reflexivity. }
  rewrite Hsk. unfold lastn.
  rewrite skipn_skipn, length_skipn, length_app.
  f_equal. lia.
Qed.

(** Pushing onto an array within the cap keeps the last 2000 of the
    result. *)
Lemma pushCapped_lastn (arr : list Uid) (u : Uid) :
  pushCapped arr u = lastn 2000 (arr ++ [u]).
Proof.
  unfold pushCapped.
  destruct (Z.ltb_spec 2000 (Z.of_nat (length (arr ++ [u])))) as [Hbig|Hok].
  - unfold sliceFrom, lastn. cbv zeta.
    change (-2000 <? 0) with true. cbv iota.
    f_equal. lia.
  - symmetry. apply lastn_all. lia.
Qed.

Lemma fold_pushCapped (ids arr : list Uid) :
  (length arr <= 2000)%nat ->
  fold_left pushCapped ids arr = lastn 2000 (arr ++ ids).
Proof.
  revert arr. induction ids as [|u ids IH]; intros arr Hlen; simpl.
  - rewrite app_nil_r. symmetry. now apply lastn_all.
  - rewrite IH.
    + rewrite pushCapped_lastn, lastn_app_lastn, <- app_assoc. reflexivity.
    + rewrite pushCapped_lastn, lastn_length. lia.
Qed.

Lemma pushCapped_length (arr : list Uid) (u : Uid) :
  (length (pushCapped arr u) <= 2000)%nat.
Proof. rewrite pushCapped_lastn, lastn_length. lia. Qed.

(** An element with fewer than [n] elements after it is among the last
    [n]. *)
Lemma lastn_keeps_recent {A} (n : nat) (l r : list A) (x : A) :
  (length r < n)%nat -> In x (lastn n (l ++ x :: r)).
Proof.
  intros Hr. unfold lastn. rewrite skipn_app.
  apply in_or_app. right.
  rewrite length_app. simpl.
  replace (length l + S (length r) - n - length l)%nat with 0%nat by lia.
  now left.
Qed.

Lemma seenArray_markInMemory (db0 : Low) (arr : list Uid) (u : Uid) :
  seenArray db0 = Some arr ->
  seenArray (markInMemory db0 u) = Some (pushCapped arr u).
Proof.
  unfold seenArray, markInMemory. intros H.
  destruct (data db0) as [d|]; [|discriminate].
  now rewrite H.
Qed.

Lemma seenArray_markAll (ids : list Uid) (db0 : Low) (arr : list Uid) :
  seenArray db0 = Some arr ->
  seenArray (markAll db0 ids) = Some (fold_left pushCapped ids arr).
Proof.
  unfold markAll. revert db0 arr.
  induction ids as [|u ids IH]; intros db0 arr H; simpl; [assumption|].
  apply IH. now apply seenArray_markInMemory.
Qed.

(** The cap invariant of [markProcessed], on a store that holds an array
    within the cap: after any calls the array is the last 2000 of all that
    was ever put in, in the order it was put in, and never longer than
    2000. *)
Lemma markAll_keeps_last_2000 (db0 : Low) (arr ids : list Uid) :
  seenArray db0 = Some arr ->
  (length arr <= 2000)%nat ->
  seenSet (markAll db0 ids) = lastn 2000 (arr ++ ids)
  /\ (length (seenSet (markAll db0 ids)) <= 2000)%nat.
Proof.
  intros Harr Hlen. unfold seenSet.
  rewrite (seenArray_markAll ids db0 arr Harr).
  rewrite fold_pushCapped by assumption.
  split; [reflexivity|]. rewrite lastn_length. lia.
Qed.

(** The oldest entry goes first: 2003 identifiers put into an empty array
    leave the identifiers 4 to 2003. *)
Example cap_sample :
  seenSet (markAll (storeWith Missing [])
             (map (fun n => UidNum (N.of_nat n)) (seq 1 2003)))
  = map (fun n => UidNum (N.of_nat n)) (seq 4 2000).
Proof. vm_compute. reflexivity. Qed.

(** Without an array [markProcessed] changes nothing in memory. *)
Lemma markInMemory_no_array (db0 : Low) (u : Uid) :
  seenArray db0 = None -> markInMemory db0 u = db0.
Proof.
  unfold seenArray, markInMemory. intros H.
  destruct (data db0) as [d|]; [|reflexivity].
  now rewrite H.
Qed.

Lemma markAll_no_array (db0 : Low) (ids : list Uid) :
  seenArray db0 = None -> markAll db0 ids = db0.
Proof.
  intros H. unfold markAll.
  induction ids as [|u ids IH]; simpl; [reflexivity|].
  now rewrite markInMemory_no_array.
Qed.

(** What is in the array after a call is what was there or what the call
    was for. *)
Lemma seenSet_markInMemory (db0 : Low) (u v : Uid) :
  In v (seenSet (markInMemory db0 u)) -> In v (seenSet db0) \/ v = u.
Proof.
  unfold seenSet, seenArray, markInMemory.
  destruct (data db0) as [d|] eqn:Ed; simpl; [|rewrite Ed; tauto].
  destruct (processedUids d) as [arr|] eqn:Earr; simpl;
    [|rewrite Ed, Earr; tauto].
  rewrite pushCapped_lastn. unfold lastn. intros Hin.
  apply In_skipn_In in Hin. apply in_app_or in Hin.
  destruct Hin as [Hin|[Hin|[]]]; [now left|now right].
Qed.

(** With an array, the identifier of a call is in it afterwards, and stays
    in it while fewer than 2000 further calls are made. *)
Lemma markAll_still_includes (db0 : Low) (arr ids : list Uid) (u : Uid) :
  seenArray db0 = Some arr ->
  (length ids < 2000)%nat ->
  hasProcessed (markAll (markInMemory db0 u) ids) u = Some true.
Proof.
  intros Harr Hids. unfold hasProcessed.
  rewrite (seenArray_markAll ids _ _ (seenArray_markInMemory db0 arr u Harr)).
  simpl. f_equal. apply includes_In.
  rewrite fold_pushCapped by apply pushCapped_length.
  rewrite pushCapped_lastn, lastn_app_lastn, <- app_assoc.
  now apply lastn_keeps_recent.
Qed.


Lemma markInMemory_data (a b : Low) (u : Uid) :
  data a = data b -> data (markInMemory a u) = data (markInMemory b u).
Proof.
  unfold markInMemory. intros H. rewrite H.
  destruct (data b) as [d|] eqn:Eb; [|now rewrite H, Eb].
  destruct (processedUids d); [reflexivity|now rewrite H, Eb].
Qed.

Lemma markAll_data (ids : list Uid) (a b : Low) :
  data a = data b -> data (markAll a ids) = data (markAll b ids).
Proof.
  unfold markAll. revert a b.
  induction ids as [|u ids IH]; intros a b H; simpl; [assumption|].
  apply IH. now apply markInMemory_data.
Qed.

(** The write does not change what is in memory. *)
Lemma markProcessed_memory (diskOk : bool) (db0 : Low) (u : Uid) :
  data (fst (markProcessed diskOk db0 u)) = data (markInMemory db0 u).
Proof.
  unfold markProcessed, Low_write.
  destruct (data (markInMemory db0 u)) as [d|] eqn:Ed; simpl.
  - destruct diskOk; simpl; [reflexivity|assumption].
  - assumption.
Qed.

Lemma seenArray_data (a b : Low) : data a = data b -> seenArray a = seenArray b.
Proof. unfold seenArray. now intros ->. Qed.

(** Had the default data been [null], lines 40-42 would have made the empty
    array. *)
Lemma openStore_null_default :
  openStoreWith None Missing true = Resolved (storeWith (Holds {| lastEmailUid := None; processedUids := Some [] |}) []).
Proof. reflexivity. Qed.

(** A file that already holds an array is taken as it is. *)
Lemma openStore_existing_array (arr : list Uid) (l : option (option N)) :
  let d := {| lastEmailUid := l; processedUids := Some arr |} in
  openStore (Holds d) true = Resolved {| file := Holds d; data := Some d |}.
Proof. reflexivity. Qed.

(** The file that a first start leaves behind gives the same store at the
    next start: still no array. *)
Lemma openStore_after_first_start :
  openStore (file freshStore) true = Resolved freshStore.
Proof. reflexivity. Qed.

(** A corrupt file makes the start fail. *)
Lemma openStore_corrupt (diskOk : bool) :
  openStore Corrupt diskOk = Rejected (lit "SyntaxError").
Proof. reflexivity. Qed.

End Store.

(** C2. Evaluation at the failing input: with no file at [DB_FILE] the
    opened store holds the default data [{ lastEmailUid: null }] and no
    [processedUids] array; [hasProcessed] answers [undefined] and
    [markProcessed] appends nothing, whatever the identifier. *)
Theorem C2_no_file_gives_no_array (uid : Uid) (ids : list Uid) :
  openStore Missing true = Resolved freshStore
  /\ seenArray freshStore = None
  /\ hasProcessed freshStore uid = None
  /\ markProcessed true freshStore uid = (freshStore, Resolved tt)
  /\ seenArray (markAll freshStore ids) = None.
Proof.
  repeat split.
  now rewrite markAll_no_array.
Qed.

(** C4. Evaluation at the failing input: on the store opened without a
    file, no call of [markProcessed] retains an identifier, so the Seen-Set
    stays empty and is not the most recently seen identifiers. *)
Theorem C4_fresh_store_retains_nothing (ids : list Uid) :
  seenSet (markAll freshStore ids) = []
  /\ seenSet (markAll freshStore [UidNum 7]) <> lastn 2000 [UidNum 7].
Proof.
  split.
  - now rewrite markAll_no_array.
  - discriminate.
Qed.

(** ** The sender *)

Section Sender.

Lemma attempt_failure (r : Response) :
  match r with
  | HttpStatus _ _ | NetworkFailure _ => True
  | Http2xx _ | Http2xxNotJson _ => False
  end ->
  attempt r = Rejected (detailOf r).
Proof. destruct r; simpl; [tauto|tauto|reflexivity|reflexivity]. Qed.

(** A run that resolves has a request that was answered with success. *)
Lemma pRetryFrom_resolved {A} (input : nat -> settled jsstring A)
    (fac : Z) (left number : nat) (delay : Z) steps a :
  pRetryFrom input fac number delay left = (steps, Resolved a) ->
  exists k, In (Attempt k) steps /\ input k = Resolved a.
Proof.
  revert number delay steps.
  induction left as [|left IH]; intros number delay steps; simpl.
  - destruct (input number) as [v|e] eqn:E; [|discriminate].
    intros [= <- ->]. exists number. split; [now left|assumption].
  - destruct (input number) as [v|e] eqn:E.
    + intros [= <- <-]. exists number. split; [now left|assumption].
    + destruct (pRetryFrom input fac (S number) (delay * fac) left)
        as [steps' r] eqn:Erec.
      intros [= <- ->].
      destruct (IH _ _ _ Erec) as (k & Hin & Hk).
      exists k. split; [right; right; assumption|assumption].
Qed.

(** A run never makes more than [retries + 1] requests. *)
Lemma pRetryFrom_bound {A} (input : nat -> settled jsstring A)
    (fac : Z) (left number : nat) (delay : Z) :
  (attemptsOf (fst (pRetryFrom input fac number delay left)) <= S left)%nat.
Proof.
  revert number delay.
  induction left as [|left IH]; intros number delay; simpl.
  - destruct (input number); unfold attemptsOf; simpl; lia.
  - destruct (input number); [unfold attemptsOf; simpl; lia|].
    specialize (IH (S number) (delay * fac)).
    destruct (pRetryFrom input fac (S number) (delay * fac) left) as [st r].
    unfold attemptsOf in *. simpl in *. lia.
Qed.

Lemma send_always_failing (transport : nat -> Response) :
  alwaysFails transport ->
  sendTelegramMessage transport =
    ([Attempt 1; Backoff 1000; Attempt 2; Backoff 2000;
      Attempt 3; Backoff 4000; Attempt 4],
     Rejected (detailOf (transport 4%nat))).
Proof.
  intros Hfail.
  unfold sendTelegramMessage, pRetry, sendOptions. simpl.
  rewrite !(attempt_failure _ (Hfail _)). reflexivity.
Qed.

End Sender.

(** ** The handlers and the event loop *)

Section EventLoop.

Variable prog : Program.

Lemma nth_error_last {A} (l : list A) (x : A) :
  nth_error (l ++ [x]) (length l) = Some x.
Proof. rewrite nth_error_app2, Nat.sub_diag by lia. reflexivity. Qed.

Lemma setPhase_last (l : list Task) (t : Task) (ph : Phase) :
  setPhase (length l) ph (l ++ [t]) =
  l ++ [{| task_uid := task_uid t; task_subject := task_subject t;
           task_message := task_message t; task_phase := ph |}].
Proof.
  unfold setPhase. rewrite nth_error_last.
  rewrite (skipn_all2 (n := S (length l)))
    by (rewrite length_app; simpl; lia).
  rewrite firstn_app, Nat.sub_diag, firstn_all. simpl.
  now rewrite app_nil_r.
Qed.

Lemma In_setPhase (k : nat) (ph : Phase) (ts : list Task) (t' : Task) :
  In t' (setPhase k ph ts) ->
  In t' ts \/
  exists t, nth_error ts k = Some t /\ task_uid t' = task_uid t
            /\ task_phase t' = ph.
Proof.
  unfold setPhase. destruct (nth_error ts k) as [t|] eqn:E; [|tauto].
  intros Hin. apply in_app_or in Hin. destruct Hin as [Hin|[Heq|Hin]].
  - left. rewrite <- (firstn_skipn k ts). apply in_or_app. now left.
  - right. exists t. subst t'. simpl. tauto.
  - left. now apply In_skipn_In in Hin.
Qed.

(** [examine] reads the store and never writes it; it starts the handler
    [handlerFor] says; it adds to the trace no request and no call of
    [markProcessed]. *)
Lemma examine_effect (w : World) (m : Fetched) :
  db (examine prog w m) = db w
  /\ parsing (examine prog w m) = parsing w
  /\ tasks (examine prog w m) = tasks w ++ handlerFor prog (db w) m
  /\ exists o, trace (examine prog w m) = trace w ++ o
               /\ forall u, postsFor u o = [] /\ marksFor u o = 0%nat.
Proof.
  unfold examine, handlerFor.
  destruct (parsed m) as [p|err]; simpl.
  - destruct (truthy (hasProcessed (db w) (uidOf m))); simpl.
    + rewrite app_nil_r. repeat split.
      exists []. rewrite app_nil_r. repeat split.
    + repeat split. eexists. split; [reflexivity|]. repeat split.
  - rewrite app_nil_r. repeat split.
    eexists. split; [reflexivity|]. repeat split.
Qed.

Lemma handlerFor_waiting (store : Low) (m : Fetched) (t : Task) :
  In t (handlerFor prog store m) -> task_phase t = Waiting.
Proof.
  unfold handlerFor. destruct (parsed m); [|intros []].
  destruct (truthy _); [intros []|].
  intros [<-|[]]. reflexivity.
Qed.

Lemma handlerFor_length (store : Low) (m : Fetched) :
  (length (handlerFor prog store m) <= 1)%nat.
Proof.
  unfold handlerFor. destruct (parsed m); [|simpl; lia].
  destruct (truthy _); simpl; lia.
Qed.

Lemma postsFor_app (u : Uid) (a b : list Obs) :
  postsFor u (a ++ b) = postsFor u a ++ postsFor u b.
Proof. apply flat_map_app. Qed.

Lemma marksFor_app (u : Uid) (a b : list Obs) :
  marksFor u (a ++ b) = (marksFor u a + marksFor u b)%nat.
Proof. unfold marksFor. now rewrite filter_app, length_app. Qed.

Lemma latest10_firstn (results : list N) :
  latest10 results = firstn 50 results.
Proof.
  unfold latest10, slice0. cbv zeta.
  change (50 <? 0) with false. cbv iota.
  destruct (Nat.le_gt_cases 50 (length results)) as [Hge|Hlt].
  - rewrite Z.min_l by lia. reflexivity.
  - rewrite Z.min_r by lia. rewrite Nat2Z.id.
    rewrite firstn_all. now rewrite firstn_all2 by lia.
Qed.

(** What a poll does by the time its promise resolves, whatever the search
    gives: the store and the handlers are as they were, the trace has
    grown by the search and what follows it. *)
Lemma fetchAndProcess_effect (search : SearchOutcome) (mailbox : N -> Fetched)
    (w : World) :
  let w' := fetchAndProcess prog search mailbox w in
  db w' = db w
  /\ tasks w' = tasks w
  /\ exists o, trace w' = trace w ++ Search [UNSEEN; SINCE (sinceDate prog)] :: o
               /\ forall u, postsFor u o = [] /\ marksFor u o = 0%nat.
Proof.
  unfold fetchAndProcess.
  destruct search as [err|[[|r results]|]]; simpl;
    (split; [reflexivity|]); (split; [reflexivity|]).
  - eexists. rewrite <- app_assoc. split; [reflexivity|]. repeat split.
  - exists []. repeat split.
  - eexists. rewrite <- app_assoc. split; [reflexivity|]. repeat split.
  - exists []. repeat split.
Qed.

(** The messages a poll hands to the parser are those of the first 50
    results. *)
Lemma fetchAndProcess_parsing (results : list N) (mailbox : N -> Fetched)
    (w : World) :
  parsing (fetchAndProcess prog (SearchResults (Some results)) mailbox w)
  = parsing w ++ map mailbox (firstn 50 results).
Proof.
  unfold fetchAndProcess. destruct results as [|r results].
  - simpl. now rewrite app_nil_r.
  - cbv zeta. rewrite latest10_firstn. reflexivity.
Qed.

Lemma removeAt_length {A} (i : nat) (l : list A) (x : A) :
  nth_error l i = Some x -> length l = S (length (removeAt i l)).
Proof.
  intros H. assert (Hi : (i < length l)%nat)
    by (apply nth_error_Some; now rewrite H).
  unfold removeAt. rewrite length_app, length_firstn, length_skipn. lia.
Qed.

(** What the settling of a parse does: the store is as it was, at most one
    handler starts, in its waiting phase, and the message leaves the
    parser. *)
Lemma parseSettles_effect (i : nat) (w : World) :
  let w' := parseSettles prog i w in
  db w' = db w
  /\ (exists ts, tasks w' = tasks w ++ ts
                 /\ forall t, In t ts -> task_phase t = Waiting)
  /\ (exists o, trace w' = trace w ++ o
                /\ forall u, postsFor u o = [] /\ marksFor u o = 0%nat)
  /\ (length (tasks w') + length (parsing w')
      <= length (tasks w) + length (parsing w))%nat.
Proof.
  unfold parseSettles.
  destruct (nth_error (parsing w) i) as [m|] eqn:Ei; cbv zeta.
  - match goal with
    | |- context [examine prog ?w0 m] =>
        destruct (examine_effect w0 m) as (Hdb & Hparsing & Htasks & Htr)
    end.
    cbn [db parsing tasks trace] in Hdb, Hparsing, Htasks, Htr.
    rewrite Hdb, Hparsing, Htasks.
    split; [reflexivity|]. split.
    + eexists. split; [reflexivity|]. apply handlerFor_waiting.
    + split; [exact Htr|].
      rewrite length_app, (removeAt_length i (parsing w) m Ei).
      pose proof (handlerFor_length (db w) m). lia.
  - split; [reflexivity|]. split.
    + exists []. rewrite app_nil_r. split; [reflexivity|intros t []].
    + split; [|lia]. exists []. rewrite app_nil_r. repeat split.
Qed.

End EventLoop.

Section Handlers.

Variable prog : Program.

Lemma hasProcessed_data (a b : Low) (u : Uid) :
  data a = data b -> hasProcessed a u = hasProcessed b u.
Proof. unfold hasProcessed. intros H. now rewrite (seenArray_data a b H). Qed.

Lemma seenSet_data (a b : Low) : data a = data b -> seenSet a = seenSet b.
Proof. unfold seenSet. intros H. now rewrite (seenArray_data a b H). Qed.


(** An identifier that the store does not hold: the offer runs the handler
    to its end. *)
Lemma offer_unseen (m : Fetched) (p : ParsedMail) (transport : nat -> Response)
    (diskOk : bool) (w : World) :
  parsed m = Resolved p ->
  truthy (hasProcessed (db w) (uidOf m)) = false ->
  let t ph := {| task_uid := uidOf m; task_subject := subjectOf p;
                 task_message := formatMessage (cfg prog) p;
                 task_phase := ph |} in
  let sent := sendTelegramMessage transport in
  offer prog m transport diskOk w =
  resumes (length (tasks w)) diskOk
    {| db := db w;
       parsing := parsing w;
       tasks := tasks w ++ [t (Sent (snd sent))];
       trace := (trace w ++ [SetTimeout 5000])
                  ++ map (retryObs prog (t Waiting) transport) (fst sent) |}.
Proof.
  intros Hp Hunseen t sent. unfold offer, examine. rewrite Hp, Hunseen.
  unfold timerFires. cbn [tasks db trace].
  rewrite nth_error_last. cbn [task_phase].
  fold sent. destruct sent as [steps r]. cbn [fst snd tasks db trace].
  now rewrite setPhase_last.
Qed.



End Handlers.

(** C1. Evaluation at the failing input: the store is the one opened
    without a file; a poll finds message 7, it is sent with success and
    [markProcessed] is called; the next poll finds message 7 again and it
    is sent again: two requests, two calls of [markProcessed], and still
    nothing in the Seen-Set. *)
Theorem C1_fresh_store_second_offer_sends_again (prog : Program) :
  let poll := Poll (SearchResults (Some [7%N])) Sample.mailbox in
  let w1 := run prog (startWorld freshStore)
              [poll; ParseSettles 0; TimerFires 0 Sample.accepts;
               Resumes 0 true] in
  let w2 := run prog w1
              [poll; ParseSettles 0; TimerFires 1 Sample.accepts;
               Resumes 1 true] in
  openStore Missing true = Resolved freshStore
  /\ postsFor (UidNum 7) (trace w1) = [Http2xx (lit "{}")]
  /\ marksFor (UidNum 7) (trace w1) = 1%nat
  /\ hasProcessed (db w1) (UidNum 7) = None
  /\ postsFor (UidNum 7) (trace w2) = [Http2xx (lit "{}"); Http2xx (lit "{}")]
  /\ marksFor (UidNum 7) (trace w2) = 2%nat
  /\ seenSet (db w2) = [].
Proof. repeat split. Qed.

(** The same two polls on a store that holds an (empty) array: the second
    one sends nothing and marks nothing. *)
Example second_poll_sends_nothing :
  let poll := Poll (SearchResults (Some [7%N])) Sample.mailbox in
  let w1 := run Sample.program (startWorld (storeWith Missing []))
              [poll; ParseSettles 0; TimerFires 0 Sample.accepts;
               Resumes 0 true] in
  let w2 := run Sample.program w1
              [poll; ParseSettles 0; TimerFires 1 Sample.accepts;
               Resumes 1 true] in
  postsFor (UidNum 7) (trace w2) = [Http2xx (lit "{}")]
  /\ marksFor (UidNum 7) (trace w2) = 1%nat
  /\ tasks w2 = tasks w1
  /\ seenSet (db w2) = [UidNum 7].
Proof. repeat split. Qed.

(** C5. A transport that fails every time: the sender makes exactly four
    requests, waits 1000, 2000 and 4000 ms between them, and rejects with
    the detail of the last failure; the handler logs that error and ends,
    and the store is left as it was, without a call of [markProcessed]. *)
Theorem C5_failing_transport_four_attempts (prog : Program) (m : Fetched)
    (p : ParsedMail) (transport : nat -> Response) (diskOk : bool)
    (w : World) :
  parsed m = Resolved p ->
  truthy (hasProcessed (db w) (uidOf m)) = false ->
  alwaysFails transport ->
  let sent := sendTelegramMessage transport in
  let w' := offer prog m transport diskOk w in
  let req := sendRequest (cfg prog) (formatMessage (cfg prog) p) in
  attemptsOf (fst sent) = 4%nat
  /\ backoffsOf (fst sent) = [1000; 2000; 4000]
  /\ snd sent = Rejected (detailOf (transport 4%nat))
  /\ db w' = db w
  /\ trace w' =
       trace w ++
       [SetTimeout 5000;
        Post (uidOf m) req (transport 1%nat); SetTimeout 1000;
        Post (uidOf m) req (transport 2%nat); SetTimeout 2000;
        Post (uidOf m) req (transport 3%nat); SetTimeout 4000;
        Post (uidOf m) req (transport 4%nat);
        ConsoleError (lit "Failed to send to Telegram: "
                        ++ detailOf (transport 4%nat))]
  /\ marksFor (uidOf m) (trace w') = marksFor (uidOf m) (trace w)
  /\ hasProcessed (db w') (uidOf m) = hasProcessed (db w) (uidOf m).
Proof.
  intros Hp Hunseen Hfail sent w' req.
  assert (Hsent : sent = ([Attempt 1; Backoff 1000; Attempt 2; Backoff 2000;
                           Attempt 3; Backoff 4000; Attempt 4],
                          Rejected (detailOf (transport 4%nat))))
    by (apply send_always_failing; assumption).
  assert (Hw' : w' =
    {| db := db w;
       parsing := parsing w;
       tasks := tasks w ++
                [{| task_uid := uidOf m; task_subject := subjectOf p;
                    task_message := formatMessage (cfg prog) p;
                    task_phase := Finished |}];
       trace := trace w ++
         [SetTimeout 5000;
          Post (uidOf m) req (transport 1%nat); SetTimeout 1000;
          Post (uidOf m) req (transport 2%nat); SetTimeout 2000;
          Post (uidOf m) req (transport 3%nat); SetTimeout 4000;
          Post (uidOf m) req (transport 4%nat);
          ConsoleError (lit "Failed to send to Telegram: "
                          ++ detailOf (transport 4%nat))] |}).
  { unfold w'. rewrite (offer_unseen prog m p transport diskOk w Hp Hunseen).
    cbv zeta. fold sent. rewrite Hsent. cbn [fst snd map retryObs task_uid
                                              task_message].
    unfold resumes. cbn [tasks db trace]. rewrite nth_error_last.
    cbn [task_phase]. rewrite setPhase_last. cbn [tasks db trace task_uid
                                                  task_subject task_message].
    rewrite <- !app_assoc. reflexivity. }
  rewrite Hsent, Hw'. cbn [fst snd db trace].
  repeat split.
  rewrite marksFor_app. unfold marksFor at 2. simpl. lia.
Qed.

(** The fifth claim on a server that answers 500 every time. *)
Lemma C5_failing_transport_four_attempts_witness :
  let m := Sample.mailbox 7%N in
  let w := startWorld (storeWith Missing []) in
  let w' := offer Sample.program m Sample.refuses true w in
  attemptsOf (fst (sendTelegramMessage Sample.refuses)) = 4%nat
  /\ backoffsOf (fst (sendTelegramMessage Sample.refuses)) = [1000; 2000; 4000]
  /\ snd (sendTelegramMessage Sample.refuses)
     = Rejected (lit "Telegram API error 500: down 4")
  /\ db w' = db w
  /\ length (postsFor (uidOf m) (trace w')) = 4%nat
  /\ marksFor (uidOf m) (trace w') = 0%nat
  /\ hasProcessed (db w') (uidOf m) = Some false.
Proof.
  intros m w w'.
  destruct (C5_failing_transport_four_attempts Sample.program m Sample.mail
              Sample.refuses true w)
    as (Hn & Hb & Hr & Hdb & Htr & Hmarks & Hseen);
    [reflexivity | reflexivity | intros k; exact I |].
  fold w' in Hdb, Htr, Hmarks, Hseen.
  split; [exact Hn|]. split; [exact Hb|]. split; [exact Hr|].
  split; [exact Hdb|].
  rewrite Hmarks, Hseen, Htr. repeat split.
Defined.

(** ** Marking follows sending *)

Section MarkedAfterSent.

Variable prog : Program.
Variable store : Low.

Lemma sentOk_app (u : Uid) (tr o : list Obs) :
  sentOk u tr -> sentOk u (tr ++ o).
Proof.
  intros (req & json & Hin). exists req, json. apply in_or_app. now left.
Qed.

(** An identifier that was accounted for before the trace grew still is. *)
Ltac still_accounted Hseen u Hin :=
  destruct (Hseen u Hin) as [?H|?H];
  [now left | right; now apply sentOk_app].

Lemma attempt_resolved (r : Response) (json : jsstring) :
  attempt r = Resolved json -> r = Http2xx json.
Proof. destruct r; simpl; intros [= ->]; reflexivity. Qed.

Lemma poll_preserves (search : SearchOutcome) (mailbox : N -> Fetched)
    (w : World) :
  marked_after_sent store w ->
  marked_after_sent store (fetchAndProcess prog search mailbox w).
Proof.
  intros [Hseen Htasks].
  destruct (fetchAndProcess_effect prog search mailbox w)
    as (Hdb & Hts & o & Htr & _).
  cbv zeta in Hdb, Hts, Htr. split.
  - intros u Hin. rewrite Hdb in Hin. rewrite Htr.
    still_accounted Hseen u Hin.
  - intros t json Hin Hph. rewrite Hts in Hin. rewrite Htr.
    apply sentOk_app. now apply (Htasks t json).
Qed.

Lemma parseSettles_preserves (i : nat) (w : World) :
  marked_after_sent store w ->
  marked_after_sent store (parseSettles prog i w).
Proof.
  intros [Hseen Htasks].
  destruct (parseSettles_effect prog i w)
    as (Hdb & (ts & Hts & Hwait) & (o & Htr & _) & _).
  cbv zeta in Hdb, Hts, Htr. split.
  - intros u Hin. rewrite Hdb in Hin. rewrite Htr.
    still_accounted Hseen u Hin.
  - intros t json Hin Hph. rewrite Hts in Hin. rewrite Htr.
    apply in_app_or in Hin. destruct Hin as [Hin|Hin].
    + apply sentOk_app. now apply (Htasks t json).
    + rewrite (Hwait t Hin) in Hph. discriminate.
Qed.

Lemma timerFires_preserves (k : nat) (transport : nat -> Response)
    (w : World) :
  marked_after_sent store w ->
  marked_after_sent store (timerFires prog k transport w).
Proof.
  intros [Hseen Htasks]. unfold timerFires.
  destruct (nth_error (tasks w) k) as [t|] eqn:Ek; [|now split].
  destruct (task_phase t) eqn:Eph; try now split.
  destruct (sendTelegramMessage transport) as [steps r] eqn:Esend.
  split; cbn [db tasks trace].
  - intros u Hin.
    still_accounted Hseen u Hin.
  - intros t' json Hin Hph.
    apply In_setPhase in Hin.
    destruct Hin as [Hin|(t0 & Hk & Huid & Hph')].
    + apply sentOk_app. now apply (Htasks t' json).
    + rewrite Ek in Hk. injection Hk as <-.
      rewrite Hph' in Hph. injection Hph as ->.
      unfold sendTelegramMessage, pRetry in Esend.
      destruct (pRetryFrom_resolved _ _ _ _ _ _ _ Esend) as (n & Hn & Hok).
      apply attempt_resolved in Hok.
      exists (sendRequest (cfg prog) (task_message t)), json.
      apply in_or_app. right. rewrite Huid, <- Hok.
      exact (in_map (retryObs prog t transport) steps (Attempt n) Hn).
Qed.

Lemma resumes_preserves (k : nat) (diskOk : bool) (w : World) :
  marked_after_sent store w ->
  marked_after_sent store (resumes k diskOk w).
Proof.
  intros [Hseen Htasks]. unfold resumes.
  destruct (nth_error (tasks w) k) as [t|] eqn:Ek; [|now split].
  assert (Hin_t : In t (tasks w)) by (eapply nth_error_In; eassumption).
  assert (Hrest : forall t' json o,
             In t' (setPhase k Finished (tasks w)) ->
             task_phase t' = Sent (Resolved json) ->
             sentOk (task_uid t') (trace w ++ o)).
  { intros t' json o Hin Hph. apply In_setPhase in Hin.
    destruct Hin as [Hin|(t0 & _ & _ & Hph')].
    - apply sentOk_app. now apply (Htasks t' json).
    - rewrite Hph' in Hph. discriminate. }
  destruct (task_phase t) as [|[json|e]|] eqn:Eph; try now split.
  - destruct (markProcessed diskOk (db w) (task_uid t)) as [db' written] eqn:Em.
    split; cbn [db tasks trace].
    + intros u Hin.
      rewrite (seenSet_data db' (markInMemory (db w) (task_uid t))) in Hin
        by (rewrite <- (markProcessed_memory diskOk); now rewrite Em).
      apply seenSet_markInMemory in Hin. destruct Hin as [Hin| ->].
      * still_accounted Hseen u Hin.
      * right. apply sentOk_app. now apply (Htasks t json).
    + intros t' json' Hin Hph. now apply (Hrest t' json').
  - split; cbn [db tasks trace].
    + intros u Hin.
      still_accounted Hseen u Hin.
    + intros t' json' Hin Hph. now apply (Hrest t' json').
Qed.

Lemma step_preserves (s : Step) (w : World) :
  marked_after_sent store w -> marked_after_sent store (step prog w s).
Proof.
  destruct s; simpl;
    [apply poll_preserves | apply parseSettles_preserves
    |apply timerFires_preserves | apply resumes_preserves].
Qed.

Lemma run_preserves (schedule : list Step) (w : World) :
  marked_after_sent store w -> marked_after_sent store (run prog w schedule).
Proof.
  unfold run. revert w.
  induction schedule as [|s schedule IH]; intros w Hw; simpl; [assumption|].
  apply IH. now apply step_preserves.
Qed.

Lemma start_marked : marked_after_sent store (startWorld store).
Proof.
  split; simpl.
  - intros u Hin. now left.
  - intros t json [].
Qed.

(** A handler whose send failed leaves the store as it is. *)
Lemma resumes_after_failure (k : nat) (diskOk : bool) (w : World) (t : Task)
    (e : jsstring) :
  nth_error (tasks w) k = Some t ->
  task_phase t = Sent (Rejected e) ->
  db (resumes k diskOk w) = db w.
Proof. intros Hk Hph. unfold resumes. now rewrite Hk, Hph. Qed.

(** A step leaves the data as it is or is one call of [markProcessed]. *)
Lemma step_marks (s : Step) (w : World) :
  data (db (step prog w s)) = data (db w)
  \/ exists u, data (db (step prog w s)) = data (markInMemory (db w) u).
Proof.
  destruct s as [search mailbox|i|k transport|k diskOk]; simpl.
  - left. destruct (fetchAndProcess_effect prog search mailbox w) as (Hdb & _).
    cbv zeta in Hdb. now rewrite Hdb.
  - left. destruct (parseSettles_effect prog i w) as (Hdb & _).
    cbv zeta in Hdb. now rewrite Hdb.
  - left. unfold timerFires.
    destruct (nth_error (tasks w) k) as [t|]; [|reflexivity].
    destruct (task_phase t); try reflexivity.
    now destruct (sendTelegramMessage transport).
  - unfold resumes.
    destruct (nth_error (tasks w) k) as [t|]; [|now left].
    destruct (task_phase t) as [|[json|e]|]; try now left.
    right. exists (task_uid t).
    destruct (markProcessed diskOk (db w) (task_uid t)) as [db' written] eqn:Em.
    cbn [db]. rewrite <- (markProcessed_memory diskOk). now rewrite Em.
Qed.

(** A schedule does to the data what so many calls of [markProcessed] do,
    at most one for each step. *)
Lemma run_marks (schedule : list Step) (w : World) :
  exists ids, (length ids <= length schedule)%nat
              /\ data (db (run prog w schedule)) = data (markAll (db w) ids).
Proof.
  unfold run. revert w.
  induction schedule as [|s schedule IH]; intros w; simpl.
  - exists []. split; [simpl; lia|reflexivity].
  - destruct (IH (step prog w s)) as (ids & Hlen & Hdata).
    destruct (step_marks s w) as [Hsame|(u & Hmark)].
    + exists ids. split; [lia|].
      rewrite Hdata. now apply markAll_data.
    + exists (u :: ids). split; [simpl; lia|].
      rewrite Hdata. unfold markAll at 2. simpl.
      now apply markAll_data.
Qed.

(** A store without an array never gets one. *)
Lemma run_keeps_no_array (schedule : list Step) (w : World) :
  seenArray (db w) = None ->
  seenArray (db (run prog w schedule)) = None.
Proof.
  intros Hnone.
  destruct (run_marks schedule w) as (ids & _ & Hdata).
  rewrite (seenArray_data _ _ Hdata).
  now rewrite markAll_no_array.
Qed.

(** On a store without an array no identifier is ever found, whatever has
    run, so every parsed message that is examined starts a handler. *)
Lemma never_seen_without_array (schedule : list Step) (w : World) (u : Uid) :
  seenArray (db w) = None ->
  truthy (hasProcessed (db (run prog w schedule)) u) = false.
Proof.
  intros Hnone. unfold hasProcessed.
  now rewrite (run_keeps_no_array schedule w Hnone).
Qed.

(** A handler whose send succeeded puts its identifier into the array when
    it resumes, if the store holds one; the identifier is then found for
    as long as fewer than 2000 further steps have run. *)
Lemma resumes_after_success (k : nat) (diskOk : bool) (w : World) (t : Task)
    (json : jsstring) (arr : list Uid) (later : list Step) :
  nth_error (tasks w) k = Some t ->
  task_phase t = Sent (Resolved json) ->
  seenArray (db w) = Some arr ->
  (length later < 2000)%nat ->
  hasProcessed (db (run prog (resumes k diskOk w) later)) (task_uid t)
  = Some true.
Proof.
  intros Hk Hph Harr Hlater.
  destruct (run_marks later (resumes k diskOk w)) as (ids & Hlen & Hdata).
  assert (Hres : data (db (resumes k diskOk w))
                 = data (markInMemory (db w) (task_uid t))).
  { unfold resumes. rewrite Hk, Hph.
    destruct (markProcessed diskOk (db w) (task_uid t)) as [db' written] eqn:Em.
    cbn [db]. rewrite <- (markProcessed_memory diskOk). now rewrite Em. }
  rewrite (hasProcessed_data _ _ (task_uid t) Hdata).
  rewrite (hasProcessed_data _ _ (task_uid t) (markAll_data ids _ _ Hres)).
  apply (markAll_still_includes (db w) arr ids (task_uid t) Harr). lia.
Qed.

End MarkedAfterSent.

(** The counterexample to the first half of the third claim, on a store
    that holds an array: the first poll fetches message 7, it is examined,
    its notification is sent and answered with success, and while its
    handler has not resumed yet a [mail] event starts the next poll, which
    fetches message 7 again.  When that poll is about to examine it, the
    identifier is not in the Seen-Set; the examination then starts a
    second handler for the message. *)
Lemma C3_sent_but_not_yet_seen : ~ sent_implies_seen_at_next_poll.
Proof.
  intros H.
  specialize (H Sample.program Missing []
                [Poll (SearchResults (Some [7%N])) Sample.mailbox;
                 ParseSettles 0; TimerFires 0 Sample.accepts]
                (SearchResults (Some [7%N])) Sample.mailbox []
                0%nat (Sample.mailbox 7%N)).
  cbv zeta in H.
  assert (Hlen : (3 + 1 + 0 < 2000)%nat) by lia.
  specialize (H Hlen). clear Hlen.
  assert (Hsent : sentOk (uidOf (Sample.mailbox 7%N))
            (trace (run Sample.program (startWorld (storeWith Missing []))
                      [Poll (SearchResults (Some [7%N])) Sample.mailbox;
                       ParseSettles 0; TimerFires 0 Sample.accepts]))).
  { exists (sendRequest (cfg Sample.program)
              (formatMessage (cfg Sample.program) Sample.mail)),
           (lit "{}").
    vm_compute. do 3 right. left. reflexivity. }
  specialize (H Hsent eq_refl). vm_compute in H. exact H.
Qed.

(** What the overlap leads to: a second poll that examines the message
    before the handler of the first has resumed sends the notification
    again, whether the first send is still waiting or has already been
    answered with success. *)
Example overlapping_polls_send_twice :
  let poll := Poll (SearchResults (Some [7%N])) Sample.mailbox in
  let w := run Sample.program (startWorld (storeWith Missing []))
             [poll; ParseSettles 0;
              poll; ParseSettles 0;
              TimerFires 0 Sample.accepts; Resumes 0 true;
              TimerFires 1 Sample.accepts; Resumes 1 true] in
  let w' := run Sample.program (startWorld (storeWith Missing []))
              [poll; ParseSettles 0; TimerFires 0 Sample.accepts;
               poll; ParseSettles 0;
               Resumes 0 true;
               TimerFires 1 Sample.accepts; Resumes 1 true] in
  (length (postsFor (UidNum 7) (trace w)) = 2%nat
   /\ seenSet (db w) = [UidNum 7; UidNum 7])
  /\ (postsFor (UidNum 7) (trace w')
      = [Http2xx (lit "{}"); Http2xx (lit "{}")]
      /\ seenSet (db w') = [UidNum 7; UidNum 7]).
Proof. repeat split; reflexivity. Qed.

(** C3, as amended.  In every world the program can reach, an identifier
    is in the Seen-Set only if it was there at the start or a request for
    it has been answered with success; a handler whose send failed leaves
    the store as it is; a handler whose send succeeded puts its identifier
    into the array at the moment it resumes, and from then on, for fewer
    than 2000 further steps, whatever they are, the identifier is found. *)
Theorem C3_marked_only_after_successful_send (prog : Program) (store : Low)
    (schedule : list Step) :
  let w := run prog (startWorld store) schedule in
  (forall u, In u (seenSet (db w)) ->
             In u (seenSet store) \/ sentOk u (trace w))
  /\ (forall k diskOk t e,
        nth_error (tasks w) k = Some t ->
        task_phase t = Sent (Rejected e) ->
        db (resumes k diskOk w) = db w)
  /\ (forall k diskOk t json arr later,
        nth_error (tasks w) k = Some t ->
        task_phase t = Sent (Resolved json) ->
        seenArray (db w) = Some arr ->
        (length later < 2000)%nat ->
        hasProcessed (db (run prog (resumes k diskOk w) later)) (task_uid t)
        = Some true).
Proof.
  intros w. split; [|split].
  - apply (run_preserves prog store schedule (startWorld store)).
    apply start_marked.
  - intros k diskOk t e. apply resumes_after_failure.
  - intros k diskOk t json arr later. apply resumes_after_success.
Qed.

(** The third claim, as amended, on three schedules over an empty array:
    message 7 handled to the end, message 7 refused by the server, and
    message 7 accepted with its handler about to resume. *)
Lemma C3_marked_only_after_successful_send_witness :
  let store := storeWith Missing [] in
  let poll := Poll (SearchResults (Some [7%N])) Sample.mailbox in
  let done := run Sample.program (startWorld store)
                [poll; ParseSettles 0; TimerFires 0 Sample.accepts;
                 Resumes 0 true] in
  let failed := run Sample.program (startWorld store)
                  [poll; ParseSettles 0; TimerFires 0 Sample.refuses] in
  let sent := run Sample.program (startWorld store)
                [poll; ParseSettles 0; TimerFires 0 Sample.accepts] in
  (In (UidNum 7) (seenSet store) \/ sentOk (UidNum 7) (trace done))
  /\ db (resumes 0 true failed) = db failed
  /\ hasProcessed
       (db (run Sample.program (resumes 0 true sent) [poll; ParseSettles 0]))
       (UidNum 7) = Some true.
Proof.
  intros store poll done failed sent.
  destruct (C3_marked_only_after_successful_send Sample.program store
              [poll; ParseSettles 0; TimerFires 0 Sample.accepts;
               Resumes 0 true])
    as (Hdone & _ & _).
  destruct (C3_marked_only_after_successful_send Sample.program store
              [poll; ParseSettles 0; TimerFires 0 Sample.refuses])
    as (_ & Hfailed & _).
  destruct (C3_marked_only_after_successful_send Sample.program store
              [poll; ParseSettles 0; TimerFires 0 Sample.accepts])
    as (_ & _ & Hsent).
  split; [|split].
  - apply Hdone. vm_compute. left. reflexivity.
  - eapply Hfailed; reflexivity.
  - assert (Ht : exists t, nth_error (tasks sent) 0 = Some t
                           /\ task_uid t = UidNum 7
                           /\ task_phase t = Sent (Resolved (lit "{}"))).
    { eexists. split; [reflexivity|split; reflexivity]. }
    destruct Ht as (t & Hk & Huid & Hph). rewrite <- Huid.
    apply (Hsent 0%nat true t (lit "{}") [] [poll; ParseSettles 0] Hk Hph);
      [reflexivity | simpl; lia].
Defined.

(** ** The poll *)

Section PollBound.

Variable prog : Program.

Lemma setPhase_length (k : nat) (ph : Phase) (ts : list Task) :
  length (setPhase k ph ts) = length ts.
Proof.
  unfold setPhase. destruct (nth_error ts k) as [t|] eqn:Ek; [|reflexivity].
  assert (Hk : (k < length ts)%nat) by (apply nth_error_Some; now rewrite Ek).
  rewrite length_app, length_firstn.
  change (length (?x :: skipn (S k) ts)) with (S (length (skipn (S k) ts))).
  rewrite length_skipn. lia.
Qed.

(** Without a new poll, the handlers that start are started for messages
    that are with the parser, one at most for each. *)
Lemma handlers_come_from_parser (schedule : list Step) (w : World) :
  startsNoPoll schedule = true ->
  (length (tasks (run prog w schedule))
   + length (parsing (run prog w schedule))
   <= length (tasks w) + length (parsing w))%nat.
Proof.
  unfold run. revert w.
  induction schedule as [|s schedule IH]; intros w Hno; simpl; [lia|].
  simpl in Hno. apply andb_true_iff in Hno. destruct Hno as [Hs Hno].
  specialize (IH (step prog w s) Hno).
  assert (Hstep : (length (tasks (step prog w s))
                   + length (parsing (step prog w s))
                   <= length (tasks w) + length (parsing w))%nat).
  { destruct s as [search mailbox|i|k transport|k diskOk];
      [discriminate Hs| | |]; simpl.
    - now destruct (parseSettles_effect prog i w) as (_ & _ & _ & Hle).
    - unfold timerFires.
      destruct (nth_error (tasks w) k) as [t|]; [|lia].
      destruct (task_phase t); try lia.
      destruct (sendTelegramMessage transport) as [steps r].
      cbn [tasks parsing]. rewrite setPhase_length. lia.
    - unfold resumes.
      destruct (nth_error (tasks w) k) as [t|]; [|lia].
      destruct (task_phase t) as [|[json|e]|]; try lia.
      + destruct (markProcessed diskOk (db w) (task_uid t)) as [db' written].
        cbn [tasks parsing]. rewrite setPhase_length. lia.
      + cbn [tasks parsing]. rewrite setPhase_length. lia. }
  lia.
Qed.

End PollBound.

(** C8. A poll hands the first 50 results of the search, in the order of
    the search, to the fetch and the messages of these to the parser, and
    of no others; whatever happens next, short of another poll, at most 50
    handlers start; when the search gives 60 results, the 50 are exactly
    the first 50. *)
Theorem C8_poll_takes_first_50 (prog : Program) (results : list N)
    (mailbox : N -> Fetched) (w : World) :
  let w' := fetchAndProcess prog (SearchResults (Some results)) mailbox w in
  latest10 results = firstn 50 results
  /\ (length (latest10 results) <= 50)%nat
  /\ parsing w' = parsing w ++ map mailbox (firstn 50 results)
  /\ db w' = db w
  /\ tasks w' = tasks w
  /\ (forall schedule,
        parsing w = [] ->
        startsNoPoll schedule = true ->
        (length (tasks (run prog w' schedule)) <= length (tasks w) + 50)%nat)
  /\ (length results = 60%nat ->
        length (latest10 results) = 50%nat
        /\ results = latest10 results ++ skipn 50 results
        /\ In (Fetch (firstn 50 results)) (trace w')).
Proof.
  intros w'. rewrite latest10_firstn.
  split; [reflexivity|]. split; [rewrite length_firstn; lia|].
  assert (Hparsing : parsing w' = parsing w ++ map mailbox (firstn 50 results))
    by apply fetchAndProcess_parsing.
  destruct (fetchAndProcess_effect prog (SearchResults (Some results))
              mailbox w) as (Hdb & Htasks & _).
  fold w' in Hdb, Htasks.
  split; [exact Hparsing|]. split; [exact Hdb|]. split; [exact Htasks|].
  split.
  - intros schedule Hempty Hno.
    pose proof (handlers_come_from_parser prog schedule w' Hno) as Hle.
    rewrite Hparsing, Htasks, Hempty in Hle.
    rewrite app_nil_l, length_map, length_firstn in Hle. lia.
  - intros Hlen. split; [rewrite length_firstn; lia|].
    split; [now rewrite firstn_skipn|].
    unfold w', fetchAndProcess. destruct results as [|r results];
      [discriminate Hlen|].
    cbv zeta. rewrite latest10_firstn. cbn [trace observe].
    apply in_or_app. right. now left.
Qed.

(** The eighth claim on a search that gives the UIDs 1 to 60, none of them
    seen before: the parses of the 50 messages settle in order and 50
    handlers start, for the UIDs 1 to 50; no schedule of 60 further
    settlings starts more. *)
Lemma C8_poll_takes_first_50_witness :
  let results := map N.of_nat (seq 1 60) in
  let w := startWorld (storeWith Missing []) in
  let w' := fetchAndProcess Sample.program (SearchResults (Some results))
              Sample.mailbox w in
  length results = 60%nat
  /\ length (latest10 results) = 50%nat
  /\ map task_uid
       (tasks (run Sample.program w' (repeat (ParseSettles 0) 50)))
     = map (fun n => UidNum (N.of_nat n)) (seq 1 50)
  /\ (length (tasks (run Sample.program w' (repeat (ParseSettles 0) 60)))
      <= 50)%nat
  /\ In (Fetch (map N.of_nat (seq 1 50))) (trace w').
Proof.
  intros results w w'.
  destruct (C8_poll_takes_first_50 Sample.program results Sample.mailbox w)
    as (_ & _ & _ & _ & _ & Hbound & H60).
  fold w' in Hbound, H60.
  assert (Hlen : length results = 60%nat) by reflexivity.
  destruct (H60 Hlen) as (H50 & _ & Hfetch).
  split; [exact Hlen|]. split; [exact H50|].
  split; [vm_compute; reflexivity|].
  split; [|exact Hfetch].
  apply (Hbound (repeat (ParseSettles 0) 60)); reflexivity.
Defined.

(** The counterexample to the ninth claim: the program is loaded on
    1 January 2026 and polls 40 days later; the search asks for the
    messages since 2 December 2025, not since 11 January 2026. *)
Lemma C9_window_is_not_relative_to_poll : ~ search_window_relative_to_poll.
Proof.
  intros H.
  specialize (H Sample.config {| localDay := 20454 |} {| localDay := 20494 |}
                (SearchError []) Sample.mailbox (startWorld freshStore)).
  vm_compute in H.
  destruct H as [H|[H|[]]]; discriminate H.
Qed.

(** C9, as amended.  Every poll searches for the messages that are unseen
    and arrived since the date 30 days before the day the program was
    loaded, whenever the poll runs; when the search fails the poll logs
    the error and returns, with the store and the handlers as they were. *)
Theorem C9_search_window_from_load_time (c : Config) (loadTime : Date)
    (search : SearchOutcome) (mailbox : N -> Fetched) (w : World)
    (err : jsstring) :
  let prog := loadProgram c loadTime in
  (exists rest,
      trace (fetchAndProcess prog search mailbox w) =
      trace w ++ Search [UNSEEN; SINCE (imapDate 30 loadTime)] :: rest)
  /\ fetchAndProcess prog (SearchError err) mailbox w =
     {| db := db w;
        parsing := parsing w;
        tasks := tasks w;
        trace := (trace w ++ [Search [UNSEEN; SINCE (imapDate 30 loadTime)]])
                   ++ [ConsoleError (lit "IMAP search error: " ++ err)] |}.
Proof.
  intros prog. split; [|reflexivity].
  destruct (fetchAndProcess_effect prog search mailbox w)
    as (_ & _ & o & Htr & _).
  exists o. exact Htr.
Qed.

(** ** The attachment summary *)

Lemma join_contains (sep x : jsstring) (xs : list jsstring) :
  In x xs -> exists pre post, join sep xs = pre ++ x ++ post.
Proof.
  induction xs as [|y ys IH]; [intros []|].
  intros [->|Hin].
  - destruct ys as [|z zs].
    + exists [], []. simpl. now rewrite app_nil_r.
    + exists [], (sep ++ join sep (z :: zs)). reflexivity.
  - destruct (IH Hin) as (pre & post & Heq).
    destruct ys as [|z zs]; [destruct Hin|].
    exists (y ++ sep ++ pre), post.
    change (join sep (y :: z :: zs)) with (y ++ sep ++ join sep (z :: zs)).
    rewrite Heq, <- !app_assoc. reflexivity.
Qed.

(** C10. Every attachment of a parsed message puts its line into the
    notification as it is: the file name (["unnamed"] when there is none),
    the content type and the size, with no escaping; the sample message,
    whose attachment is named [a<b.txt], is formatted with that name and
    not with [a&lt;b.txt]. *)
Theorem C10_attachments_are_not_escaped (cfg0 : Config) (p : ParsedMail)
    (a : Attachment) :
  In a (mail_attachments p) ->
  (exists pre post,
      formatMessage cfg0 p = pre ++ attachmentLine a ++ post)
  /\ attachmentLine a =
       bullet ++ lit " " ++ orElse (filename a) (lit "unnamed")
         ++ lit " (" ++ contentType a ++ lit ", " ++ ofN (size a)
         ++ lit " bytes)"
  /\ includesStr (formatMessage Sample.config Sample.mail) (lit "a<b.txt")
     = true
  /\ includesStr (formatMessage Sample.config Sample.mail)
       (escapeHtml (lit "a<b.txt")) = false.
Proof.
  intros Hin. split; [|split; [reflexivity|split; vm_compute; reflexivity]].
  unfold formatMessage, attachmentsSummary.
  destruct (mail_attachments p) as [|b atts] eqn:Eatts; [destruct Hin|].
  destruct (join_contains nl (attachmentLine a) (map attachmentLine (b :: atts))
              (in_map attachmentLine _ _ Hin))
    as (pre & post & Heq).
  rewrite Heq.
  exists (lit "<b>New Email</b>" ++ nl
            ++ lit "<b>From:</b> " ++ escapeHtml (fromOf p) ++ nl
            ++ lit "<b>Subject:</b> " ++ escapeHtml (subjectOf p) ++ nl
            ++ lit "<b>Date:</b> " ++ escapeHtml (dateOf p) ++ nl ++ nl
            ++ bodyText cfg0 p
            ++ (nl ++ lit "Attachments ("
                  ++ ofN (N.of_nat (length (b :: atts))) ++ lit "):" ++ nl)
            ++ pre), post.
  repeat rewrite <- app_assoc. reflexivity.
Qed.

(** The tenth claim on the sample message and its two attachments. *)
Lemma C10_attachments_are_not_escaped_witness :
  let named := {| filename := Some (lit "a<b.txt");
                  contentType := lit "text/plain"; size := 12%N |} in
  let unnamed := {| filename := None;
                    contentType := lit "image/png"; size := 0%N |} in
  (exists pre post,
      formatMessage Sample.config Sample.mail
      = pre ++ (bullet ++ lit " a<b.txt (text/plain, 12 bytes)") ++ post)
  /\ (exists pre post,
         formatMessage Sample.config Sample.mail
         = pre ++ (bullet ++ lit " unnamed (image/png, 0 bytes)") ++ post).
Proof.
  intros named unnamed. split.
  - apply (C10_attachments_are_not_escaped Sample.config Sample.mail named).
    simpl. left. reflexivity.
  - apply (C10_attachments_are_not_escaped Sample.config Sample.mail unnamed).
    simpl. right. left. reflexivity.
Defined.

(* ===================================================================== *)
(** * Further properties of the code *)
(* ===================================================================== *)

(** ** Escaping, once more *)

Section EscapingFacts.

Lemma entity_cases (c : unit16) :
  (c = amp /\ entity c = lit "&amp;")
  \/ (c = lt /\ entity c = lit "&lt;")
  \/ (c = gt /\ entity c = lit "&gt;")
  \/ (c <> amp /\ c <> lt /\ c <> gt /\ entity c = [c]).
Proof.
  unfold entity.
  destruct (N.eqb_spec c amp) as [->|Ha]; [now left|].
  destruct (N.eqb_spec c lt) as [->|Hl]; [right; now left|].
  destruct (N.eqb_spec c gt) as [->|Hg]; [right; right; now left|].
  right; right; right. tauto.
Qed.

Lemma entity_no_brackets (c x : unit16) :
  In x (entity c) -> x <> lt /\ x <> gt.
Proof.
  destruct (entity_cases c) as [[_ ->]|[[_ ->]|[[_ ->]|(_ & Hl & Hg & ->)]]];
    simpl; intros H;
    repeat (destruct H as [<-|H]; [split; (discriminate || assumption)|]);
    destruct H.
Qed.

Lemma entity_length (c : unit16) :
  (1 <= length (entity c) <= 5)%nat.
Proof.
  destruct (entity_cases c) as [[_ ->]|[[_ ->]|[[_ ->]|(_ & _ & _ & ->)]]];
    simpl; lia.
Qed.

(** The entities form a prefix code: what follows one of them is
    determined. *)
Lemma entity_prefix_free (c d : unit16) (x y : jsstring) :
  entity c ++ x = entity d ++ y -> c = d /\ x = y.
Proof.
  destruct (entity_cases c) as [[-> ->]|[[-> ->]|[[-> ->]|(Ha & Hl & Hg & ->)]]];
    destruct (entity_cases d)
      as [[-> ->]|[[-> ->]|[[-> ->]|(Ha' & Hl' & Hg' & ->)]]];
    simpl; intros H; try discriminate H;
    try (injection H as H1 H2; subst; tauto);
    try (injection H as H1 H2; split; [assumption || (symmetry; assumption)
                                      |assumption]);
    try (injection H; intros; subst; split; reflexivity);
    try (injection H; intros; exfalso;
         first [apply Ha; assumption | apply Hl; assumption
               |apply Hg; assumption
               |apply Ha'; symmetry; assumption
               |apply Hl'; symmetry; assumption
               |apply Hg'; symmetry; assumption]).
Qed.

End EscapingFacts.

Section MarkupFacts.

Lemma escapeHtml_no_brackets (s : jsstring) (x : unit16) :
  In x (escapeHtml s) -> x <> lt /\ x <> gt.
Proof.
  rewrite escapeHtml_entity. intros H.
  apply in_flat_map in H. destruct H as (c & _ & H).
  exact (entity_no_brackets c x H).
Qed.

Lemma In_firstn_In {A} (n : nat) (l : list A) (x : A) :
  In x (firstn n l) -> In x l.
Proof.
  intros H. rewrite <- (firstn_skipn n l). apply in_or_app. now left.
Qed.

(** What [shorten] returns is made of characters of its argument and, at
    most, the ellipsis. *)
Lemma shorten_In (s : jsstring) (n : Z) (x : unit16) :
  In x (shorten s n) -> In x s \/ x = 8230%N.
Proof.
  unfold shorten. destruct s as [|c r]; [intros []|].
  destruct (Z.of_nat (length (c :: r)) <=? n); [now left|].
  intros H. apply in_app_or in H. destruct H as [H|[<-|[]]].
  - left. unfold slice0 in H. now apply In_firstn_In in H.
  - now right.
Qed.

Lemma bodyText_no_brackets (cfg0 : Config) (p : ParsedMail) (x : unit16) :
  In x (bodyText cfg0 p) -> x <> lt /\ x <> gt.
Proof.
  unfold bodyText. intros H. apply shorten_In in H.
  destruct H as [H| ->]; [|split; discriminate].
  exact (escapeHtml_no_brackets _ x H).
Qed.

Lemma count_none (l : jsstring) (x : unit16) :
  (forall y, In y l -> y <> x) -> count_occ N.eq_dec l x = 0%nat.
Proof.
  intros H. apply count_occ_not_In. intros Hin. now apply (H x Hin).
Qed.

End MarkupFacts.

(** X1. Whatever the text, [escapeHtml] returns a text with no [<] and no
    [>] in it, and so does the body excerpt, which is cut out of an
    escaped text. *)
Theorem X1_escaped_text_has_no_brackets (s : jsstring) (cfg0 : Config)
    (p : ParsedMail) :
  ~ In lt (escapeHtml s) /\ ~ In gt (escapeHtml s)
  /\ ~ In lt (bodyText cfg0 p) /\ ~ In gt (bodyText cfg0 p).
Proof.
  repeat split; intros H.
  - now destruct (escapeHtml_no_brackets s lt H).
  - now destruct (escapeHtml_no_brackets s gt H).
  - now destruct (bodyText_no_brackets cfg0 p lt H).
  - now destruct (bodyText_no_brackets cfg0 p gt H).
Qed.

(** X2. In the message of a mail without attachments the only [<] and
    [>] are those of the four pairs of bold tags that the program writes:
    eight of each, whatever the sender, the subject, the date and the body
    are. *)
Theorem X2_message_brackets_are_the_tags (cfg0 : Config) (p : ParsedMail) :
  mail_attachments p = [] ->
  count_occ N.eq_dec (formatMessage cfg0 p) lt = 8%nat
  /\ count_occ N.eq_dec (formatMessage cfg0 p) gt = 8%nat.
Proof.
  intros Hatts. unfold formatMessage, attachmentsSummary. rewrite Hatts.
  assert (Hesc : forall s x, x = lt \/ x = gt ->
                   count_occ N.eq_dec (escapeHtml s) x = 0%nat).
  { intros s x Hx. apply count_none. intros y Hy ->.
    destruct (escapeHtml_no_brackets s x Hy). tauto. }
  assert (Hbody : forall x, x = lt \/ x = gt ->
                   count_occ N.eq_dec (bodyText cfg0 p) x = 0%nat).
  { intros x Hx. apply count_none. intros y Hy ->.
    destruct (bodyText_no_brackets cfg0 p x Hy). tauto. }
  split; repeat rewrite count_occ_app;
    rewrite !Hesc, Hbody by tauto; reflexivity.
Qed.

(** The second extra on a mail whose sender, subject and body are full of
    brackets. *)
Lemma X2_message_brackets_are_the_tags_witness :
  let p := {| mail_from := Some (lit "<<a>> <x@y>");
              mail_subject := Some (lit "1 < 2 > 0");
              mail_date := None;
              mail_text := Some (lit "<script>alert(1)</script>");
              mail_html := None;
              mail_attachments := [] |} in
  count_occ N.eq_dec (formatMessage Sample.config p) lt = 8%nat
  /\ count_occ N.eq_dec (formatMessage Sample.config p) gt = 8%nat.
Proof.
  intros p. apply (X2_message_brackets_are_the_tags Sample.config p).
  reflexivity.
Defined.

(** X3. [escapeHtml] loses nothing: two texts with the same escaped form
    are the same text. *)
Theorem X3_escapeHtml_is_injective (s t : jsstring) :
  escapeHtml s = escapeHtml t -> s = t.
Proof.
  rewrite !escapeHtml_entity. revert t.
  induction s as [|c s IH]; intros [|d t]; simpl; intros H.
  - reflexivity.
  - exfalso. pose proof (entity_length d) as Hd.
    destruct (entity d); [simpl in Hd; lia|discriminate H].
  - exfalso. pose proof (entity_length c) as Hc.
    destruct (entity c); [simpl in Hc; lia|discriminate H].
  - apply entity_prefix_free in H. destruct H as [-> H].
    f_equal. now apply IH.
Qed.

(** The third extra on a text built in two ways. *)
Lemma X3_escapeHtml_is_injective_witness :
  lit "a&lt;b" ++ lit "<c" = lit "a&lt;" ++ lit "b<c".
Proof.
  apply (X3_escapeHtml_is_injective (lit "a&lt;b" ++ lit "<c")
           (lit "a&lt;" ++ lit "b<c")).
  reflexivity.
Defined.

(** X4. [escapeHtml] works piece by piece and never shortens: the escaped
    form of a concatenation is the concatenation of the escaped forms, and
    its length lies between the length of the text and five times it. *)
Theorem X4_escapeHtml_pieces_and_length (s t : jsstring) :
  escapeHtml (s ++ t) = escapeHtml s ++ escapeHtml t
  /\ (length s <= length (escapeHtml s) <= 5 * length s)%nat.
Proof.
  split; [apply escapeHtml_app|].
  rewrite escapeHtml_entity.
  induction s as [|c s IH]; simpl; [lia|].
  rewrite length_app. pose proof (entity_length c). lia.
Qed.

(** ** Truncation, once more *)

(** X5. With a maximum of at least 1, what [shorten] returns is never
    longer than the maximum, and shortening it again changes nothing. *)
Theorem X5_shorten_bound_and_idempotence (s : jsstring) (n : Z) :
  1 <= n ->
  Z.of_nat (length (shorten s n)) <= n
  /\ shorten (shorten s n) n = shorten s n.
Proof.
  intros Hn.
  assert (Hlen : Z.of_nat (length (shorten s n)) <= n).
  { destruct (Z.le_gt_cases (Z.of_nat (length s)) n) as [Hle|Hgt].
    - now rewrite shorten_short.
    - rewrite shorten_long by lia.
      rewrite length_app, length_firstn. simpl. lia. }
  split; [exact Hlen|]. now apply shorten_short.
Qed.

(** The fifth extra at a maximum of 4. *)
Lemma X5_shorten_bound_and_idempotence_witness :
  Z.of_nat (length (shorten (lit "abcdefgh") 4)) <= 4
  /\ shorten (shorten (lit "abcdefgh") 4) 4 = shorten (lit "abcdefgh") 4.
Proof. apply (X5_shorten_bound_and_idempotence (lit "abcdefgh") 4). lia. Defined.

(** X6. With a maximum of 0 or less, [shorten] does not give an empty
    excerpt: of a text that is not empty it drops the last [1 - n]
    characters, as far as there are that many, and appends the ellipsis;
    at a maximum of 0 the result is as long as the text. *)
Theorem X6_shorten_below_one (s : jsstring) (n : Z) :
  n <= 0 ->
  s <> [] ->
  shorten s n =
    firstn (Z.to_nat (Z.of_nat (length s) + n - 1)) s ++ ellipsis
  /\ (n = 0 -> length (shorten s n) = length s).
Proof.
  intros Hn Hs.
  assert (Heq : shorten s n =
                firstn (Z.to_nat (Z.of_nat (length s) + n - 1)) s ++ ellipsis).
  { unfold shorten. destruct s as [|c r]; [contradiction|].
    destruct (Z.leb_spec (Z.of_nat (length (c :: r))) n) as [Hle|_];
      [simpl length in Hle; lia|].
    unfold slice0. cbv zeta.
    destruct (Z.ltb_spec (n - 1) 0) as [_|Hge]; [|lia].
    f_equal. f_equal. lia. }
  split; [exact Heq|].
  intros ->. rewrite Heq, length_app, length_firstn. simpl.
  destruct s; [contradiction|simpl length; lia].
Qed.

(** The sixth extra at the maxima 0 and -2. *)
Lemma X6_shorten_below_one_witness :
  shorten (lit "abcdef") 0 = lit "abcde" ++ ellipsis
  /\ length (shorten (lit "abcdef") 0) = 6%nat
  /\ shorten (lit "abcdef") (-2) = lit "abc" ++ ellipsis.
Proof.
  destruct (X6_shorten_below_one (lit "abcdef") 0) as [H0 Hlen];
    [lia|discriminate|].
  destruct (X6_shorten_below_one (lit "abcdef") (-2)) as [H2 _];
    [lia|discriminate|].
  split; [exact H0|]. split; [exact (Hlen eq_refl)|exact H2].
Defined.

(** ** The tag stripper *)

Section TagStripper.

(** A tag that is open and never closed stays in the text. *)
Lemma stripFrom_unclosed (l held : jsstring) :
  ~ In gt l -> stripFrom (Some held) l = lt :: rev held ++ l.
Proof.
  revert held. induction l as [|c r IH]; intros held Hno; simpl.
  - destruct held; now rewrite ?app_nil_r.
  - assert (Hc : N.eqb c gt = false).
    { apply N.eqb_neq. intros ->. apply Hno. now left. }
    assert (Hr : ~ In gt r) by (intros H; apply Hno; now right).
    destruct held as [|h t]; rewrite Hc, IH by assumption.
    + reflexivity.
    + simpl. now rewrite <- !app_assoc.
Qed.

Lemma stripFrom_again (s : jsstring) (tag : option jsstring) :
  (forall held, tag = Some held -> ~ In gt held) ->
  stripFrom None (stripFrom tag s) = stripFrom tag s.
Proof.
  revert tag. induction s as [|c r IH]; intros tag Htag.
  - destruct tag as [held|]; [|reflexivity].
    simpl stripFrom at 2 3.
    change (stripFrom None (lt :: rev held))
      with (stripFrom (Some []) (rev held)).
    apply stripFrom_unclosed. rewrite <- in_rev. now apply Htag.
  - destruct tag as [[|h t]|]; simpl stripFrom at 2 3.
    + destruct (N.eqb_spec c gt) as [->|Hc].
      * change (stripFrom None (lt :: gt :: stripFrom None r))
          with (lt :: gt :: stripFrom None (stripFrom None r)).
        rewrite IH; [reflexivity|discriminate].
      * apply IH. intros held [= <-] [Hin|[]]. now apply Hc.
    + destruct (N.eqb_spec c gt) as [->|Hc].
      * apply IH. discriminate.
      * apply IH. intros held [= <-] [Hin|Hin]; [now apply Hc|].
        now apply (Htag (h :: t) eq_refl).
    + destruct (N.eqb_spec c lt) as [->|Hc].
      * apply IH. intros held [= <-] [].
      * simpl. apply N.eqb_neq in Hc. rewrite Hc.
        rewrite IH; [reflexivity|discriminate].
Qed.

Lemma stripFrom_no_lt (s : jsstring) :
  ~ In lt s -> stripFrom None s = s.
Proof.
  induction s as [|c r IH]; intros Hno; simpl; [reflexivity|].
  assert (Hc : N.eqb c lt = false).
  { apply N.eqb_neq. intros ->. apply Hno. now left. }
  rewrite Hc, IH; [reflexivity|]. intros H. apply Hno. now right.
Qed.

Lemma stripFrom_length (s : jsstring) (tag : option jsstring) :
  (length (stripFrom tag s)
   <= length s + match tag with Some held => S (length held) | None => 0 end)%nat.
Proof.
  revert tag. induction s as [|c r IH]; intros tag.
  - destruct tag as [held|]; simpl; [rewrite length_rev|]; lia.
  - destruct tag as [[|h t]|]; simpl stripFrom.
    + destruct (N.eqb c gt).
      * specialize (IH None). simpl in *. lia.
      * specialize (IH (Some [c])). simpl in *. lia.
    + destruct (N.eqb c gt).
      * specialize (IH None). simpl in *. lia.
      * specialize (IH (Some (c :: h :: t))). simpl in *. lia.
    + destruct (N.eqb c lt).
      * specialize (IH (Some [])). simpl in *. lia.
      * specialize (IH None). simpl in *. lia.
Qed.

End TagStripper.

(** X7. Stripping the tags leaves no tag behind: stripping the result
    again changes nothing. *)
Theorem X7_stripTags_leaves_no_tag (html : jsstring) :
  stripTags (stripTags html) = stripTags html.
Proof. unfold stripTags. apply stripFrom_again. discriminate. Qed.

(** X8. Stripping the tags never lengthens a text, and a text without
    [<] is left as it is. *)
Theorem X8_stripTags_plain_text (html : jsstring) :
  (length (stripTags html) <= length html)%nat
  /\ (~ In lt html -> stripTags html = html).
Proof.
  split.
  - pose proof (stripFrom_length html None) as H. simpl in H.
    unfold stripTags. lia.
  - apply stripFrom_no_lt.
Qed.

(** The eighth extra on a text with a [>] and no [<]. *)
Lemma X8_stripTags_plain_text_witness :
  stripTags (lit "a > b & c") = lit "a > b & c".
Proof.
  apply (X8_stripTags_plain_text (lit "a > b & c")).
  vm_compute. intros H.
  repeat (destruct H as [H|H]; [discriminate H|]). exact H.
Defined.

(** ** The store, once more *)

Section StoreFacts.

Lemma markEach_data (calls : list (Uid * bool)) (db0 : Low) :
  data (markEach db0 calls) = data (markAll db0 (map fst calls)).
Proof.
  unfold markEach, markAll. revert db0.
  induction calls as [|[u ok] calls IH]; intros db0; simpl; [reflexivity|].
  rewrite IH. apply (markAll_data (map fst calls)).
  apply markProcessed_memory.
Qed.

Lemma inSync_reopens (db0 : Low) :
  inSync db0 -> openStore (file db0) true = Resolved db0.
Proof.
  intros (d & Hfile & Hdata). destruct db0 as [f dat]. simpl in *.
  subst. reflexivity.
Qed.

Lemma markProcessed_written (db0 : Low) (d : Data) (u : Uid) :
  data db0 = Some d -> inSync (fst (markProcessed true db0 u)).
Proof.
  intros Hdata. unfold markProcessed, Low_write.
  destruct (data (markInMemory db0 u)) as [d'|] eqn:Ed.
  - simpl. now exists d'.
  - exfalso. unfold markInMemory in Ed. rewrite Hdata in Ed.
    destruct (processedUids d); simpl in Ed; [discriminate|].
    rewrite Hdata in Ed. discriminate.
Qed.




End StoreFacts.

(** X9. On a store that holds an array of at most 2000 identifiers, after
    any calls of [markProcessed], whether their writes succeed or fail,
    the array is the last 2000 of what it held followed by the identifiers
    of the calls, in that order, and never holds more than 2000. *)
Theorem X9_array_is_the_last_2000 (db0 : Low) (arr : list Uid)
    (calls : list (Uid * bool)) :
  seenArray db0 = Some arr ->
  (length arr <= 2000)%nat ->
  seenSet (markEach db0 calls) = lastn 2000 (arr ++ map fst calls)
  /\ (length (seenSet (markEach db0 calls)) <= 2000)%nat.
Proof.
  intros Harr Hlen.
  rewrite (seenSet_data _ _ (markEach_data calls db0)).
  now apply markAll_keeps_last_2000.
Qed.

(** The ninth extra: 1999 identifiers are in the array and three more are
    put in, one of them with a failing write; the two oldest go. *)
Lemma X9_array_is_the_last_2000_witness :
  let old := map (fun n => UidNum (N.of_nat n)) (seq 1 1999) in
  let calls := [(UidNum 5000, true); (UidNum 5001, false);
                (UidNum 5002, true)] in
  seenSet (markEach (storeWith Missing old) calls)
  = map (fun n => UidNum (N.of_nat n)) (seq 3 1997)
      ++ [UidNum 5000; UidNum 5001; UidNum 5002]
  /\ (length (seenSet (markEach (storeWith Missing old) calls)) <= 2000)%nat.
Proof.
  intros old calls.
  destruct (X9_array_is_the_last_2000 (storeWith Missing old) old calls)
    as [Heq Hlen];
    [reflexivity | unfold old; rewrite length_map, length_seq; lia |].
  split; [|exact Hlen].
  rewrite Heq. vm_compute. reflexivity.
Defined.



(** X11. What a successful write of [markProcessed] leaves in the file
    is what a later start reads back: the store after the restart is the
    store after the call, and a start from a file the program wrote
    changes nothing. *)
Theorem X11_restart_reads_back_what_was_written (db0 : Low) (d : Data)
    (u : Uid) :
  data db0 = Some d ->
  let db1 := fst (markProcessed true db0 u) in
  openStore (file db1) true = Resolved db1
  /\ (forall v, hasProcessed db1 v = hasProcessed (markInMemory db0 u) v).
Proof.
  intros Hdata db1. split.
  - apply inSync_reopens. now apply (markProcessed_written db0 d).
  - intros v. apply hasProcessed_data. apply markProcessed_memory.
Qed.

(** The eleventh extra on a store that holds 1 and 2 and marks 7. *)
Lemma X11_restart_reads_back_what_was_written_witness :
  let d := {| lastEmailUid := None;
              processedUids := Some [UidNum 1; UidNum 2] |} in
  let db0 := {| file := Missing; data := Some d |} in
  let db1 := fst (markProcessed true db0 (UidNum 7)) in
  openStore (file db1) true = Resolved db1
  /\ hasProcessed db1 (UidNum 7) = Some true.
Proof.
  intros d db0 db1.
  destruct (X11_restart_reads_back_what_was_written db0 d (UidNum 7))
    as [Hopen Hseen]; [reflexivity|].
  split; [exact Hopen|]. fold db1 in Hseen. now rewrite Hseen.
Defined.

(** ** The handlers, once more *)

Section HandlerFacts.

Variable prog : Program.




End HandlerFacts.





(** X14. A store without a [processedUids] array never gets one: whatever
    polls, parses, sends and resumptions follow, the array is still
    missing, no identifier is found, and every parsed message that is
    examined starts a handler. *)
Theorem X14_missing_array_stays_missing (prog : Program) (w : World)
    (schedule : list Step) (m : Fetched) (p : ParsedMail) :
  seenArray (db w) = None ->
  parsed m = Resolved p ->
  let w' := run prog w schedule in
  seenArray (db w') = None
  /\ (forall u, truthy (hasProcessed (db w') u) = false)
  /\ length (tasks (examine prog w' m)) = S (length (tasks w')).
Proof.
  intros Hnone Hp w'.
  assert (Hnone' : seenArray (db w') = None)
    by now apply run_keeps_no_array.
  split; [exact Hnone'|].
  assert (Hnever : forall u, truthy (hasProcessed (db w') u) = false).
  { intros u. unfold hasProcessed. now rewrite Hnone'. }
  split; [exact Hnever|].
  unfold examine. rewrite Hp, Hnever. cbn [tasks].
  rewrite length_app. simpl. lia.
Qed.

(** The fourteenth extra on the store of a first start, after message 7
    was sent and marked. *)
Lemma X14_missing_array_stays_missing_witness :
  let w' := run Sample.program (startWorld freshStore)
              [Poll (SearchResults (Some [7%N])) Sample.mailbox;
               ParseSettles 0; TimerFires 0 Sample.accepts; Resumes 0 true] in
  seenArray (db w') = None
  /\ (forall u, truthy (hasProcessed (db w') u) = false)
  /\ length (tasks (examine Sample.program w' (Sample.mailbox 7%N)))
     = S (length (tasks w')).
Proof.
  intros w'.
  apply (X14_missing_array_stays_missing Sample.program
           (startWorld freshStore) _ (Sample.mailbox 7%N) Sample.mail);
    reflexivity.
Defined.

(** ** The sender, once more *)

(** X15. Whatever the server answers, a call of [sendTelegramMessage]
    makes between one and four requests.  On every request but the last
    the attempt rejected: the answer was a status that is not 2xx, a
    network failure, or a 2xx answer whose body is not JSON, which is
    posted again like the others.  Either the last request was answered
    with 2xx and a JSON body and the call resolves with it, or four
    requests were made, the attempt rejected on each, and the call
    rejects: nothing is sent again after an attempt that resolved.  The
    waits between the requests are 1000, 2000 and 4000 ms, as many as
    there are retries. *)
Theorem X15_send_stops_at_first_success (transport : nat -> Response) :
  let steps := fst (sendTelegramMessage transport) in
  exists n,
    (1 <= n <= 4)%nat
    /\ attemptsOf steps = n
    /\ backoffsOf steps = firstn (n - 1) [1000; 2000; 4000]
    /\ (forall i, (1 <= i < n)%nat -> failed (transport i))
    /\ ((exists json, transport n = Http2xx json
                      /\ snd (sendTelegramMessage transport) = Resolved json)
        \/ (n = 4%nat /\ failed (transport 4%nat)
            /\ exists e, snd (sendTelegramMessage transport) = Rejected e)).
Proof.
  unfold sendTelegramMessage, pRetry, sendOptions, failed. simpl.
  destruct (attempt (transport 1%nat)) as [j1|e1] eqn:E1.
  { exists 1%nat. simpl. repeat split; try lia.
    left. exists j1. split; [now apply attempt_resolved|reflexivity]. }
  destruct (attempt (transport 2%nat)) as [j2|e2] eqn:E2.
  { exists 2%nat. simpl. repeat split; try lia.
    - intros i Hi. assert (i = 1%nat) as -> by lia. now exists e1.
    - left. exists j2. split; [now apply attempt_resolved|reflexivity]. }
  destruct (attempt (transport 3%nat)) as [j3|e3] eqn:E3.
  { exists 3%nat. simpl. repeat split; try lia.
    - intros i Hi.
      assert (i = 1 \/ i = 2)%nat as [-> | ->] by lia; eexists; eassumption.
    - left. exists j3. split; [now apply attempt_resolved|reflexivity]. }
  exists 4%nat.
  assert (Hbefore : forall i, (1 <= i < 4)%nat ->
                      exists e, attempt (transport i) = Rejected e).
  { intros i Hi.
    assert (i = 1 \/ i = 2 \/ i = 3)%nat as [-> | [-> | ->]] by lia;
      eexists; eassumption. }
  destruct (attempt (transport 4%nat)) as [j4|e4] eqn:E4; simpl;
    (split; [lia|]); (split; [reflexivity|]); (split; [reflexivity|]);
    (split; [exact Hbefore|]).
  - left. exists j4. split; [now apply attempt_resolved|reflexivity].
  - right. split; [reflexivity|]. split; [now exists e4|now exists e4].
Qed.

(** The fifteenth extra on a server that refuses once, then accepts with
    a body that is not JSON, then accepts with a JSON body: three
    requests, two waits, success. *)
Lemma X15_send_stops_at_first_success_witness :
  let transport k :=
    match k with
    | 1%nat => HttpStatus 502%N []
    | 2%nat => Http2xxNotJson (lit "Unexpected token < in JSON at position 0")
    | _ => Http2xx (lit "{}")
    end in
  attemptsOf (fst (sendTelegramMessage transport)) = 3%nat
  /\ backoffsOf (fst (sendTelegramMessage transport)) = [1000; 2000]
  /\ snd (sendTelegramMessage transport) = Resolved (lit "{}").
Proof.
  intros transport.
  destruct (X15_send_stops_at_first_success transport)
    as (n & Hn & Hatt & Hback & Hfail & Hlast).
  assert (n = 3%nat) as ->.
  { destruct Hlast as [(json & Hj & _)|(-> & _ & _)].
    - assert (n = 1 \/ n = 2 \/ n = 3 \/ n = 4)%nat
        as [-> | [-> | [-> | ->]]] by lia;
        [discriminate Hj | discriminate Hj | reflexivity |].
      destruct (Hfail 3%nat) as (e & He); [lia|]. discriminate He.
    - destruct (Hfail 3%nat) as (e & He); [lia|]. discriminate He. }
  split; [exact Hatt|]. split; [exact Hback|reflexivity].
Defined.

(** ** The event loop, once more *)

Section LoopFacts.

Variable prog : Program.

Lemma setPhase_zero (ph : Phase) (t : Task) (ts : list Task) :
  setPhase 0 ph (t :: ts)
  = {| task_uid := task_uid t; task_subject := task_subject t;
       task_message := task_message t; task_phase := ph |} :: ts.
Proof. reflexivity. Qed.

Lemma setPhase_succ (k : nat) (ph : Phase) (t : Task) (ts : list Task) :
  setPhase (S k) ph (t :: ts) = t :: setPhase k ph ts.
Proof.
  unfold setPhase. simpl nth_error.
  destruct (nth_error ts k); reflexivity.
Qed.

Lemma setPhase_other (k j : nat) (ph : Phase) (ts : list Task) :
  k <> j -> nth_error (setPhase k ph ts) j = nth_error ts j.
Proof.
  revert k j. induction ts as [|t ts IH]; intros k j Hkj.
  - unfold setPhase. now destruct k.
  - destruct k as [|k].
    + rewrite setPhase_zero. destruct j as [|j]; [contradiction|reflexivity].
    + rewrite setPhase_succ. destruct j as [|j]; [reflexivity|].
      simpl. apply IH. lia.
Qed.

Lemma countPhase_setPhase (f : Phase -> bool) (k : nat) (ph : Phase)
    (ts : list Task) (t : Task) :
  nth_error ts k = Some t ->
  (countPhase f (setPhase k ph ts) + (if f (task_phase t) then 1 else 0)
   = countPhase f ts + (if f ph then 1 else 0))%nat.
Proof.
  revert k. induction ts as [|t0 ts IH]; intros k Hk.
  - destruct k; discriminate Hk.
  - destruct k as [|k].
    + injection Hk as ->. rewrite setPhase_zero. unfold countPhase. simpl.
      destruct (f (task_phase t)), (f ph); simpl; lia.
    + rewrite setPhase_succ. specialize (IH k Hk).
      unfold countPhase in *. simpl.
      destruct (f (task_phase t0)); simpl; lia.
Qed.

Lemma countPhase_app (f : Phase -> bool) (a b : list Task) :
  countPhase f (a ++ b) = (countPhase f a + countPhase f b)%nat.
Proof. unfold countPhase. now rewrite filter_app, length_app. Qed.

Lemma requestsIn_app (a b : list Obs) :
  requestsIn (a ++ b) = (requestsIn a + requestsIn b)%nat.
Proof. unfold requestsIn. now rewrite filter_app, length_app. Qed.

Lemma markCallsIn_app (a b : list Obs) :
  markCallsIn (a ++ b) = (markCallsIn a + markCallsIn b)%nat.
Proof. unfold markCallsIn. now rewrite filter_app, length_app. Qed.

Lemma requestsIn_retry (t : Task) (transport : nat -> Response)
    (steps : list RetryStep) :
  requestsIn (map (retryObs prog t transport) steps) = attemptsOf steps.
Proof.
  unfold requestsIn, attemptsOf.
  induction steps as [|[k|ms] steps IH]; simpl; [reflexivity| |assumption].
  now rewrite IH.
Qed.

Lemma markCallsIn_retry (t : Task) (transport : nat -> Response)
    (steps : list RetryStep) :
  markCallsIn (map (retryObs prog t transport) steps) = 0%nat.
Proof.
  unfold markCallsIn.
  induction steps as [|[k|ms] steps IH]; simpl; assumption || reflexivity.
Qed.

Lemma countPhase_one (f : Phase -> bool) (t : Task) :
  countPhase f [t] = if f (task_phase t) then 1%nat else 0%nat.
Proof. unfold countPhase. simpl. now destruct (f (task_phase t)). Qed.

Lemma examine_balanced (w : World) (m : Fetched) :
  balanced w -> balanced (examine prog w m).
Proof.
  unfold balanced, examine. intros [Hreq Hmark].
  destruct (parsed m) as [p|err].
  - destruct (truthy (hasProcessed (db w) (uidOf m)));
      [split; assumption|].
    cbn [tasks trace].
    rewrite requestsIn_app, markCallsIn_app, !countPhase_app, length_app,
      !countPhase_one.
    cbn [task_phase isWaiting isFinished length].
    change (requestsIn [SetTimeout 5000]) with 0%nat.
    change (markCallsIn [SetTimeout 5000]) with 0%nat.
    split; lia.
  - cbn [observe tasks trace].
    rewrite requestsIn_app, markCallsIn_app.
    change (requestsIn [ConsoleError ?x]) with 0%nat.
    change (markCallsIn [ConsoleError ?x]) with 0%nat.
    split; lia.
Qed.

Lemma step_balanced (s : Step) (w : World) :
  balanced w -> balanced (step prog w s).
Proof.
  intros Hw. destruct s as [search mailbox|i|k transport|k diskOk]; simpl.
  - destruct Hw as [Hreq Hmark]. unfold balanced, fetchAndProcess.
    destruct search as [err|[[|r results]|]]; simpl;
      rewrite ?requestsIn_app, ?markCallsIn_app;
      unfold requestsIn at 2, markCallsIn at 2; simpl;
      try (unfold requestsIn at 2, markCallsIn at 2; simpl); lia.
  - unfold parseSettles.
    destruct (nth_error (parsing w) i) as [m|]; [|assumption].
    apply examine_balanced. exact Hw.
  - unfold timerFires.
    destruct (nth_error (tasks w) k) as [t|] eqn:Ek; [|assumption].
    destruct (task_phase t) eqn:Eph; try assumption.
    pose proof (pRetryFrom_bound (fun n => attempt (transport n)) 2 3 1 1000)
      as Hbound.
    unfold sendTelegramMessage, pRetry, sendOptions. cbn [factor minTimeout retries].
    destruct (pRetryFrom (fun n => attempt (transport n)) 2 1 1000 3)
      as [steps r].
    cbn [fst] in Hbound. destruct Hw as [Hreq Hmark].
    unfold balanced. cbn [tasks trace].
    rewrite requestsIn_app, markCallsIn_app, requestsIn_retry,
      markCallsIn_retry, setPhase_length.
    pose proof (countPhase_setPhase isWaiting k (Sent r) (tasks w) t Ek) as Hw1.
    pose proof (countPhase_setPhase isFinished k (Sent r) (tasks w) t Ek) as Hf1.
    rewrite Eph in Hw1, Hf1. simpl in Hw1, Hf1. lia.
  - unfold resumes.
    destruct (nth_error (tasks w) k) as [t|] eqn:Ek; [|assumption].
    destruct (task_phase t) as [|[json|e]|] eqn:Eph; try assumption.
    + destruct (markProcessed diskOk (db w) (task_uid t)) as [db' written].
      destruct Hw as [Hreq Hmark]. unfold balanced. cbn [tasks trace].
      rewrite requestsIn_app, markCallsIn_app, setPhase_length.
      pose proof (countPhase_setPhase isWaiting k Finished (tasks w) t Ek)
        as Hw1.
      pose proof (countPhase_setPhase isFinished k Finished (tasks w) t Ek)
        as Hf1.
      rewrite Eph in Hw1, Hf1. simpl in Hw1, Hf1.
      unfold requestsIn at 2. unfold markCallsIn at 2.
      destruct written; simpl; lia.
    + destruct Hw as [Hreq Hmark]. unfold balanced. cbn [tasks trace].
      rewrite requestsIn_app, markCallsIn_app, setPhase_length.
      pose proof (countPhase_setPhase isWaiting k Finished (tasks w) t Ek)
        as Hw1.
      pose proof (countPhase_setPhase isFinished k Finished (tasks w) t Ek)
        as Hf1.
      rewrite Eph in Hw1, Hf1. simpl in Hw1, Hf1.
      unfold requestsIn at 2. unfold markCallsIn at 2. simpl. lia.
Qed.

Lemma run_balanced (schedule : list Step) (w : World) :
  balanced w -> balanced (run prog w schedule).
Proof.
  unfold run. revert w.
  induction schedule as [|s schedule IH]; intros w Hw; simpl; [assumption|].
  apply IH. now apply step_balanced.
Qed.

Lemma countPhase_le (f : Phase -> bool) (ts : list Task) :
  (countPhase f ts <= length ts)%nat.
Proof. unfold countPhase. apply filter_length_le. Qed.

End LoopFacts.

(** X16. A handler is touched only by its own steps: the start of a poll,
    the settling of a parse, and the send or the resumption of another
    handler leave it exactly as it is, at the place where it is. *)
Theorem X16_other_handlers_untouched (prog : Program) (s : Step) (w : World)
    (j : nat) (t : Task) :
  nth_error (tasks w) j = Some t ->
  sparesHandler j s ->
  nth_error (tasks (step prog w s)) j = Some t.
Proof.
  intros Hj Hs.
  destruct s as [search mailbox|i|k transport|k diskOk]; simpl in *.
  - destruct (fetchAndProcess_effect prog search mailbox w) as (_ & Hts & _).
    cbv zeta in Hts. now rewrite Hts.
  - destruct (parseSettles_effect prog i w) as (_ & (ts & Hts & _) & _).
    cbv zeta in Hts. rewrite Hts.
    rewrite nth_error_app1; [assumption|].
    apply nth_error_Some. now rewrite Hj.
  - unfold timerFires.
    destruct (nth_error (tasks w) k) as [t0|]; [|assumption].
    destruct (task_phase t0); try assumption.
    destruct (sendTelegramMessage transport) as [steps r].
    cbn [tasks]. now rewrite setPhase_other.
  - unfold resumes.
    destruct (nth_error (tasks w) k) as [t0|]; [|assumption].
    destruct (task_phase t0) as [|[json|e]|]; try assumption.
    + destruct (markProcessed diskOk (db w) (task_uid t0)) as [db' written].
      cbn [tasks]. now rewrite setPhase_other.
    + cbn [tasks]. now rewrite setPhase_other.
Qed.

(** The sixteenth extra: the messages 7 and 8 wait; the send of 7 is
    refused four times and its handler ends; the handler of 8 still
    waits. *)
Lemma X16_other_handlers_untouched_witness :
  let w := run Sample.program (startWorld (storeWith Missing []))
             [Poll (SearchResults (Some [7%N; 8%N])) Sample.mailbox;
              ParseSettles 0; ParseSettles 0;
              TimerFires 0 Sample.refuses] in
  option_map task_phase (nth_error (tasks w) 1) = Some Waiting
  /\ option_map task_phase
       (nth_error (tasks (step Sample.program w (Resumes 0 true))) 1)
     = Some Waiting.
Proof.
  intros w.
  assert (H1 : exists t, nth_error (tasks w) 1 = Some t
                         /\ task_phase t = Waiting).
  { eexists. split; reflexivity. }
  destruct H1 as (t & Ht & Hph).
  split; [now rewrite Ht; simpl; rewrite Hph|].
  rewrite (X16_other_handlers_untouched Sample.program (Resumes 0 true) w 1 t
             Ht); [now simpl; rewrite Hph|].
  simpl. discriminate.
Defined.

(** X17. Counted over a whole run from the start, whatever the schedule:
    the program never makes more than four requests for a handler it
    started and never calls [markProcessed] more than once for one. *)
Theorem X17_requests_and_marks_are_bounded (prog : Program) (store : Low)
    (schedule : list Step) :
  let w := run prog (startWorld store) schedule in
  (requestsIn (trace w) <= 4 * length (tasks w))%nat
  /\ (markCallsIn (trace w) <= length (tasks w))%nat.
Proof.
  intros w.
  assert (Hstart : balanced (startWorld store)).
  { unfold balanced. simpl. split; apply Nat.le_refl. }
  destruct (run_balanced prog schedule (startWorld store) Hstart)
    as [Hreq Hmark].
  fold w in Hreq, Hmark.
  pose proof (countPhase_le isFinished (tasks w)). split; lia.
Qed.

(** X18. Polling, parsing and sending never write the store: over a
    schedule in which no handler resumes after its send, the store in
    memory and the file are what they were. *)
Theorem X18_store_written_only_on_resumption (prog : Program) (w : World)
    (schedule : list Step) :
  resumesNone schedule = true ->
  db (run prog w schedule) = db w.
Proof.
  unfold run. revert w.
  induction schedule as [|s schedule IH]; intros w Hno; simpl; [reflexivity|].
  simpl in Hno. apply andb_true_iff in Hno. destruct Hno as [Hs Hno].
  rewrite (IH _ Hno).
  destruct s as [search mailbox|i|k transport|k diskOk]; simpl.
  - now destruct (fetchAndProcess_effect prog search mailbox w) as (Hdb & _).
  - now destruct (parseSettles_effect prog i w) as (Hdb & _).
  - unfold timerFires.
    destruct (nth_error (tasks w) k) as [t|]; [|reflexivity].
    destruct (task_phase t); try reflexivity.
    now destruct (sendTelegramMessage transport).
  - discriminate Hs.
Qed.

(** The eighteenth extra: two messages are fetched, parsed and sent, one
    with success, and the store is untouched until a handler resumes. *)
Lemma X18_store_written_only_on_resumption_witness :
  db (run Sample.program (startWorld (storeWith Missing [UidNum 1]))
        [Poll (SearchResults (Some [7%N; 8%N])) Sample.mailbox;
         ParseSettles 1; ParseSettles 0;
         TimerFires 0 Sample.accepts; TimerFires 1 Sample.refuses])
  = storeWith Missing [UidNum 1].
Proof.
  apply (X18_store_written_only_on_resumption Sample.program
           (startWorld (storeWith Missing [UidNum 1]))).
  reflexivity.
Defined.

(** ** The search date, once more *)

Section CalendarFacts.

Lemma scan_checks_all (f : Z -> bool) (k : nat) :
  let st := Nat.iter k (scanStep f) (0, true) in
  fst st = Z.of_nat k
  /\ (snd st = true -> forall z, 0 <= z < Z.of_nat k -> f z = true).
Proof.
  induction k as [|k [Hfst Hall]].
  - simpl. split; [reflexivity|]. intros _ z Hz. lia.
  - cbn [Nat.iter nat_rect]. unfold scanStep at 1. cbn [fst snd].
    fold (Nat.iter k (scanStep f) (0, true)).
    cbv zeta in Hfst, Hall. rewrite Hfst.
    split; [lia|].
    intros Hok. apply andb_true_iff in Hok. destruct Hok as [Hprev Hk].
    intros z Hz.
    destruct (Z.eq_dec z (Z.of_nat k)) as [->|Hne];
      [now rewrite <- Hfst|].
    apply (Hall Hprev). lia.
Qed.

Lemma every_day_of_era_valid (doe : Z) :
  0 <= doe < 146097 -> monthDayValid (monthDayOfEra doe) = true.
Proof.
  intros Hdoe.
  pose proof (scan_checks_all (fun z => monthDayValid (monthDayOfEra z))
                (Pos.to_nat 146097)) as [_ Hall].
  cbv zeta in Hall. apply Hall.
  - unfold Nat.iter. rewrite <- Pos2Nat.inj_iter. vm_compute. reflexivity.
  - rewrite positive_nat_Z. lia.
Qed.

Lemma civil_month_day (day : Z) :
  (snd (fst (civil day)), snd (civil day))
  = monthDayOfEra ((day + 719468) mod 146097).
Proof.
  unfold civil, monthDayOfEra. cbv zeta. cbn [fst snd].
  replace (day + 719468 - (day + 719468) / 146097 * 146097)
    with ((day + 719468) mod 146097)
    by (rewrite Z.mod_eq by lia; ring).
  reflexivity.
Qed.

Lemma civil_valid (day : Z) :
  1 <= snd (fst (civil day)) <= 12 /\ 1 <= snd (civil day) <= 31.
Proof.
  pose proof (every_day_of_era_valid ((day + 719468) mod 146097)
                (Z.mod_pos_bound _ 146097 eq_refl)) as H.
  rewrite <- civil_month_day in H. unfold monthDayValid in H.
  cbn [fst snd] in H.
  apply andb_true_iff in H. destruct H as [H H4].
  apply andb_true_iff in H. destruct H as [H H3].
  apply andb_true_iff in H. destruct H as [H1 H2].
  apply Z.leb_le in H1, H2, H3, H4. lia.
Qed.

Lemma setDate_days_before (now : Date) (days : Z) :
  withinRange (localDay now - days) ->
  setDate now (getDate now - days)
  = Some {| localDay := localDay now - days |}.
Proof.
  unfold withinRange, setDate, maxDay. intros Hrange. cbv zeta.
  replace (localDay now - (getDate now - 1) + (getDate now - days - 1))
    with (localDay now - days) by lia.
  destruct (Z.leb_spec (Z.abs (localDay now - days)) 100000000);
    [reflexivity|lia].
Qed.

Lemma setDate_out_of_range (now : Date) (days : Z) :
  maxDay < Z.abs (localDay now - days) ->
  setDate now (getDate now - days) = None.
Proof.
  unfold setDate, maxDay. intros Hrange. cbv zeta.
  replace (localDay now - (getDate now - 1) + (getDate now - days - 1))
    with (localDay now - days) by lia.
  destruct (Z.leb_spec (Z.abs (localDay now - days)) 100000000);
    [lia|reflexivity].
Qed.

End CalendarFacts.

(** X19. For a [new Date()] and a number of days that leave the date
    within the range of a [Date], [imapDate(days)] names the calendar day
    that lies [days] days before today, across the ends of months and
    years: it prints what [imapDate(0)] prints on that day, which is a day
    of the month from 1 to 31, one of the twelve month names and a year,
    joined by hyphens.  (Beyond the range the date is invalid and the
    text is [NaN-undefined-NaN].) *)
Theorem X19_imapDate_names_a_calendar_day (days : Z) (now : Date) :
  withinRange (localDay now) ->
  withinRange (localDay now - days) ->
  imapDate days now = imapDate 0 {| localDay := localDay now - days |}
  /\ exists d m y,
       1 <= d <= 31 /\ In m monthNames
       /\ imapDate days now = ofZ d ++ lit "-" ++ m ++ lit "-" ++ ofZ y.
Proof.
  intros _ Hrange. unfold imapDate.
  rewrite (setDate_days_before now days Hrange).
  rewrite (setDate_days_before {| localDay := localDay now - days |} 0)
    by (cbn [localDay]; now rewrite Z.sub_0_r).
  cbn [localDay]. rewrite Z.sub_0_r. split; [reflexivity|].
  set (d := {| localDay := localDay now - days |}).
  destruct (civil_valid (localDay d)) as [Hm Hd].
  exists (getDate d),
         (nth (Z.to_nat (getMonth d)) monthNames (lit "undefined")),
         (getFullYear d).
  split; [exact Hd|]. split; [|reflexivity].
  apply nth_In. unfold getMonth.
  change (length monthNames) with 12%nat. lia.
Qed.

(** The nineteenth extra on 1 March 2024, a leap year, and on 1 January
    2026: one day and thirty days before. *)
Lemma X19_imapDate_names_a_calendar_day_witness :
  imapDate 1 {| localDay := 19783 |} = lit "29-Feb-2024"
  /\ imapDate 30 {| localDay := 20454 |}
     = imapDate 0 {| localDay := 20424 |}.
Proof.
  split.
  - destruct (X19_imapDate_names_a_calendar_day 1 {| localDay := 19783 |})
      as [Hsame _];
      [unfold withinRange, maxDay; simpl; lia ..|].
    rewrite Hsame. reflexivity.
  - destruct (X19_imapDate_names_a_calendar_day 30 {| localDay := 20454 |})
      as [Hsame _];
      [unfold withinRange, maxDay; simpl; lia ..|].
    exact Hsame.
Defined.

(** Out of the range at every time of day and in every zone: an invalid
    date. *)
Lemma imapDate_out_of_range (days : Z) (now : Date) :
  maxDay + 2 <= Z.abs (localDay now - days) ->
  imapDate days now = lit "NaN-undefined-NaN".
Proof.
  intros Hrange. unfold imapDate.
  rewrite (setDate_out_of_range now days); [reflexivity|lia].
Qed.

(** ** Identifiers *)

(** X20. A message whose attributes carry no UID, or the UID 0, gets the
    identifier [fallback-<clock>-<random>], a string; no numeric
    identifier equals it, so a store that holds only UIDs of the server
    never finds it. *)
Theorem X20_fallback_identifier_is_never_a_server_uid (m : Fetched)
    (f : FileState) (arr : list Uid) :
  attrs_uid m = None \/ attrs_uid m = Some 0%N ->
  (forall x, In x arr -> exists n, x = UidNum n) ->
  uidOf m
  = UidStr (lit "fallback-" ++ ofN (clock_ms m) ++ lit "-" ++ random m)
  /\ hasProcessed (storeWith f arr) (uidOf m) = Some false.
Proof.
  intros Hno Hnum.
  assert (Huid : uidOf m = UidStr (lit "fallback-" ++ ofN (clock_ms m)
                                     ++ lit "-" ++ random m)).
  { unfold uidOf. now destruct Hno as [-> | ->]. }
  split; [exact Huid|]. rewrite Huid.
  unfold hasProcessed, seenArray. simpl. f_equal.
  destruct (includes arr _) eqn:E; [|reflexivity].
  apply includes_In in E. destruct (Hnum _ E) as (n & Hn). discriminate Hn.
Qed.

(** The twentieth extra: a message with the UID 0, and a store that holds
    the UIDs 1 to 3. *)
Lemma X20_fallback_identifier_is_never_a_server_uid_witness :
  let m := {| attrs_uid := Some 0%N; parsed := Resolved Sample.mail;
              clock_ms := 1700000000000%N; random := lit "0.5" |} in
  uidOf m = UidStr (lit "fallback-1700000000000-0.5")
  /\ hasProcessed (storeWith Missing [UidNum 1; UidNum 2; UidNum 3]) (uidOf m)
     = Some false.
Proof.
  intros m.
  apply (X20_fallback_identifier_is_never_a_server_uid m Missing
           [UidNum 1; UidNum 2; UidNum 3]).
  - right. reflexivity.
  - intros x [<-|[<-|[<-|[]]]]; eexists; reflexivity.
Defined.

(** ** The connection supervisor *)

Import Supervisor.

Section SupervisorFacts.

Variable MAILBOX : jsstring.
Variable surfaced : list jsstring -> jsstring.

Lemma setNth_length {A} (i : nat) (x : A) (l : list A) :
  length (setNth i x l) = length l.
Proof.
  unfold setNth. destruct (nth_error l i) eqn:E; [|reflexivity].
  assert (Hi : (i < length l)%nat) by (apply nth_error_Some; now rewrite E).
  rewrite length_app, length_firstn.
  change (length (x :: skipn (S i) l)) with (S (length (skipn (S i) l))).
  rewrite length_skipn. lia.
Qed.

Lemma total_app {A} (mu : A -> nat) (a b : list A) :
  total mu (a ++ b) = (total mu a + total mu b)%nat.
Proof. unfold total. now rewrite map_app, list_sum_app. Qed.

Lemma total_setNth {A} (mu : A -> nat) (i : nat) (x old : A) (l : list A) :
  nth_error l i = Some old ->
  (total mu (setNth i x l) + mu old = total mu l + mu x)%nat.
Proof.
  intros E. unfold setNth. rewrite E.
  rewrite <- (firstn_skipn i l) at 3.
  assert (Hsk : skipn i l = old :: skipn (S i) l).
  { clear x. revert i E. induction l as [|y l IH]; intros [|i] E;
      try discriminate E.
    - now injection E as ->.
    - simpl. now apply IH. }
  rewrite Hsk, !total_app. unfold total. simpl. lia.
Qed.

Lemma total_le {A} (mu : A -> nat) (n : nat) (l : list A) :
  (forall x, In x l -> (mu x <= n)%nat) ->
  (total mu l <= n * length l)%nat.
Proof.
  unfold total. induction l as [|x l IH]; intros H; simpl; [lia|].
  assert (mu x <= n)%nat by (apply H; now left).
  assert (list_sum (map mu l) <= n * length l)%nat
    by (apply IH; intros y Hy; apply H; now right).
  lia.
Qed.

Lemma Forall_setNth {A} (P : A -> Prop) (i : nat) (x : A) (l : list A) :
  Forall P l -> P x -> Forall P (setNth i x l).
Proof.
  intros Hl Hx. unfold setNth. destruct (nth_error l i); [|assumption].
  rewrite Forall_forall in Hl.
  apply Forall_app. split.
  - apply Forall_forall. intros y Hy. apply Hl. now apply In_firstn_In in Hy.
  - constructor; [assumption|].
    apply Forall_forall. intros y Hy. apply Hl. now apply In_skipn_In in Hy.
Qed.

Lemma nth_of_nth_error {A} (i : nat) (l : list A) (d x : A) :
  nth_error l i = Some x -> nth i l d = x.
Proof. intros H. now apply nth_error_nth. Qed.

Lemma connects_app (a b : list Act) :
  connects (a ++ b) = (connects a + connects b)%nat.
Proof. unfold connects. now rewrite filter_app, length_app. Qed.

Lemma timersOf_app (ms : Z) (a b : list Act) :
  timersOf ms (a ++ b) = (timersOf ms a + timersOf ms b)%nat.
Proof. unfold timersOf. now rewrite filter_app, length_app. Qed.

(** The invariant looks at the objects, the global variable, the runs and
    what was done, and at nothing else. *)
Lemma SoundBut_same (d g c : nat) (st st' : State) :
  sessions st' = sessions st -> imap st' = imap st ->
  runs st' = runs st -> acts st' = acts st ->
  SoundBut d g c st -> SoundBut d g c st'.
Proof.
  intros Hs Hi Hr Ha [H1 H2 H3 H4 H5 H6 H7].
  constructor; rewrite ?Hs, ?Hi, ?Hr, ?Ha; assumption.
Qed.

Lemma doing_sound (d g c : nat) (a : list Act) (st : State) :
  timersOf 5000 a = 0%nat -> timersOf 10000 a = 0%nat ->
  connects a = 0%nat ->
  SoundBut d g c st -> SoundBut d g c (doing a st).
Proof.
  intros Ha5 Ha10 Hac [H1 H2 H3 H4 H5 H6 H7].
  constructor; cbn [doing sessions imap runs acts]; try assumption;
    rewrite ?timersOf_app, ?connects_app, ?Ha5, ?Ha10, ?Hac; lia.
Qed.

Lemma connect_sound (d g c : nat) (s : nat) (st : State) :
  SoundBut d g (S c) st -> SoundBut d g c (doing [Connect s] st).
Proof.
  intros [H1 H2 H3 H4 H5 H6 H7].
  constructor; cbn [doing sessions imap runs acts]; try assumption;
    rewrite ?timersOf_app, ?connects_app;
    change (timersOf 5000 [Connect s]) with 0%nat;
    change (timersOf 10000 [Connect s]) with 0%nat;
    change (connects [Connect s]) with 1%nat; lia.
Qed.

Lemma endCallbacks_app (a b : list Listener) :
  endCallbacks (a ++ b) = (endCallbacks a + endCallbacks b)%nat.
Proof. unfold endCallbacks. now rewrite filter_app, length_app. Qed.

Lemma listen_sound (d g c : nat) (ls : list Listener) (st : State) :
  Forall (fun l => registeredAsWritten l = true) ls ->
  endCallbacks ls = 0%nat ->
  SoundBut d g c st -> SoundBut d g c (listen ls st).
Proof.
  intros Hls Hends [H1 H2 H3 H4 H5 H6 H7].
  destruct (nth_error (sessions st) (imap st)) as [old|] eqn:E;
    [|apply nth_error_None in E; lia].
  pose proof (total_setNth endCallbacks (imap st) (old ++ ls) old
                (sessions st) E) as Htot.
  assert (Hold : Forall (fun l => registeredAsWritten l = true) old).
  { rewrite Forall_forall in H1. apply H1. eapply nth_error_In; eassumption. }
  constructor; cbn [listen sessions imap runs acts];
    rewrite ?setNth_length, ?(nth_of_nth_error _ _ [] old E); try assumption.
  - apply Forall_setNth; [assumption|]. apply Forall_app. now split.
  - rewrite endCallbacks_app in Htot. lia.
Qed.

Lemma setRun_sound (d g c n : nat) (r : nat) (new old : Connecting)
    (st : State) :
  nth_error (runs st) r = Some old ->
  inBounds new ->
  gaveUp old = 0%nat ->
  (attemptBound new = attemptBound old + n)%nat ->
  SoundBut d g c st ->
  SoundBut d (g + gaveUp new) (c + n) (setRun r new st).
Proof.
  intros E Hnew Hold Hbound [H1 H2 H3 H4 H5 H6 H7].
  pose proof (total_setNth gaveUp r new old (runs st) E) as Hg.
  pose proof (total_setNth attemptBound r new old (runs st) E) as Hb.
  constructor; cbn [setRun sessions imap runs acts];
    rewrite ?setNth_length; try assumption.
  - now apply Forall_setNth.
  - lia.
  - lia.
Qed.

Lemma setTimer_sound_5000 (d g c : nat) (t : Timer) (st : State) :
  SoundBut (S d) g c st -> SoundBut d g c (setTimer t 5000 st).
Proof.
  intros [H1 H2 H3 H4 H5 H6 H7].
  constructor; cbn [setTimer sessions imap runs acts]; try assumption;
    rewrite ?timersOf_app, ?connects_app;
    change (timersOf 5000 [SetTimer 5000]) with 1%nat;
    change (timersOf 10000 [SetTimer 5000]) with 0%nat;
    change (connects [SetTimer 5000]) with 0%nat; lia.
Qed.

Lemma setTimer_sound_10000 (d g c : nat) (t : Timer) (st : State) :
  SoundBut d (S g) c st -> SoundBut d g c (setTimer t 10000 st).
Proof.
  intros [H1 H2 H3 H4 H5 H6 H7].
  constructor; cbn [setTimer sessions imap runs acts]; try assumption;
    rewrite ?timersOf_app, ?connects_app;
    change (timersOf 5000 [SetTimer 10000]) with 0%nat;
    change (timersOf 10000 [SetTimer 10000]) with 1%nat;
    change (connects [SetTimer 10000]) with 0%nat; lia.
Qed.

Lemma retryDelay_values (k : nat) :
  (1 <= k <= 3)%nat ->
  retryDelay k = 1000 \/ retryDelay k = 2000 \/ retryDelay k = 4000.
Proof.
  intros Hk. assert (k = 1 \/ k = 2 \/ k = 3)%nat as [->|[->| ->]] by lia;
    vm_compute; tauto.
Qed.

Lemma setTimer_sound_retry (d g c : nat) (t : Timer) (k : nat) (st : State) :
  (1 <= k <= 3)%nat ->
  SoundBut d g c st -> SoundBut d g c (setTimer t (retryDelay k) st).
Proof.
  intros Hk [H1 H2 H3 H4 H5 H6 H7].
  assert (H5000 : timersOf 5000 [SetTimer (retryDelay k)] = 0%nat)
    by (destruct (retryDelay_values k Hk) as [->|[->| ->]]; reflexivity).
  assert (H10000 : timersOf 10000 [SetTimer (retryDelay k)] = 0%nat)
    by (destruct (retryDelay_values k Hk) as [->|[->| ->]]; reflexivity).
  constructor; cbn [setTimer sessions imap runs acts]; try assumption;
    rewrite ?timersOf_app, ?connects_app, ?H5000, ?H10000;
    change (connects [SetTimer (retryDelay k)]) with 0%nat; lia.
Qed.

Lemma SoundBut_adjust (d g c d' g' c' : nat) (st : State) :
  d = d' -> g = g' -> (c' <= c)%nat ->
  SoundBut d g c st -> SoundBut d' g' c' st.
Proof.
  intros <- <- Hc [H1 H2 H3 H4 H5 H6 H7].
  constructor; try assumption. lia.
Qed.

Lemma run_inBounds (st : State) (d g c r : nat) (x : Connecting) :
  SoundBut d g c st -> nth_error (runs st) r = Some x -> inBounds x.
Proof.
  intros H E. pose proof (sound_runs _ _ _ _ H) as Hr.
  rewrite Forall_forall in Hr. apply Hr. eapply nth_error_In; eassumption.
Qed.

Lemma connectAttempt_sound (d g c n r k : nat) (errors : list jsstring)
    (old : Connecting) (st : State) :
  nth_error (runs st) r = Some old ->
  (1 <= k <= 4)%nat ->
  gaveUp old = 0%nat ->
  (k = attemptBound old + n)%nat ->
  SoundBut d g (S c - n) st ->
  (n <= S c)%nat ->
  SoundBut d g c (connectAttempt r k errors st).
Proof.
  intros E Hk Hold Hn H Hle. unfold connectAttempt.
  apply listen_sound; [repeat constructor|reflexivity|].
  apply connect_sound.
  apply (SoundBut_adjust d (g + gaveUp (Attempting k errors)) (S c - n + n));
    [reflexivity|simpl; lia|lia|].
  now apply (setRun_sound d g (S c - n) n r (Attempting k errors) old).
Qed.

Lemma call_sound (e : Emitted) (cb : Callback) (d : nat) (st : State) :
  SoundBut (d + match cb with EndCallback => 1 | _ => 0 end) 0 0 st ->
  SoundBut d 0 0 (call MAILBOX surfaced e st cb).
Proof.
  intros H. destruct cb as [| | |r k|r k|]; cbn [call];
    rewrite ?Nat.add_0_r, ?Nat.add_1_r in H.
  - eapply (SoundBut_same _ _ _ (doing _ st)); [reflexivity..|].
    apply doing_sound; [reflexivity..|assumption].
  - destruct e; try assumption.
    apply doing_sound; [reflexivity..|assumption].
  - apply setTimer_sound_5000. apply doing_sound; [reflexivity..|assumption].
  - destruct (nth_error (runs st) r) as [[k' errs| | |]|] eqn:E;
      try assumption.
    destruct (Nat.eqb k k'); [|assumption].
    pose proof (run_inBounds st _ _ _ r _ H E) as Hb. cbn [inBounds] in Hb.
    apply (SoundBut_adjust d (0 + gaveUp Connected) (0 + (4 - k')));
      [reflexivity|reflexivity|lia|].
    apply (setRun_sound d 0 0 (4 - k') r Connected (Attempting k' errs));
      [assumption|exact I|reflexivity|cbn [attemptBound]; lia|assumption].
  - destruct (nth_error (runs st) r) as [[k' errs| | |]|] eqn:E;
      try assumption; destruct e as [|err| |]; try assumption.
    destruct (Nat.eqb_spec k k') as [->|]; [|assumption].
    pose proof (run_inBounds st _ _ _ r _ H E) as Hb. cbn [inBounds] in Hb.
    destruct (Nat.leb_spec k' 3) as [Hle|Hgt].
    + apply setTimer_sound_retry; [lia|].
      apply (SoundBut_adjust d (0 + gaveUp (BackingOff k' (errs ++ [err])))
               (0 + 0)); [reflexivity|reflexivity|lia|].
      apply (setRun_sound d 0 0 0 r (BackingOff k' (errs ++ [err]))
               (Attempting k' errs));
        [assumption|cbn [inBounds]; lia|reflexivity|cbn [attemptBound]; lia|assumption].
    + apply setTimer_sound_10000.
      apply doing_sound; [reflexivity..|].
      apply (SoundBut_adjust d (0 + gaveUp GaveUp) (0 + (4 - k')));
        [reflexivity|reflexivity|lia|].
      apply (setRun_sound d 0 0 (4 - k') r GaveUp (Attempting k' errs));
        [assumption|exact I|reflexivity|cbn [attemptBound]; lia|assumption].
  - apply doing_sound; [reflexivity..|assumption].
Qed.

Lemma calls_sound (e : Emitted) (ls : list Listener) (d : nat) (st : State) :
  SoundBut (d + endCallbacks ls) 0 0 st ->
  SoundBut d 0 0
    (fold_left (call MAILBOX surfaced e) (map callback ls) st).
Proof.
  revert st. induction ls as [|l ls IH]; intros st H; simpl.
  - now rewrite Nat.add_0_r in H.
  - apply IH. apply call_sound.
    unfold endCallbacks in *. simpl in H. unfold isEndCallback at 1 in H.
    destruct (callback l); simpl in H;
      (eapply SoundBut_adjust; [| | |exact H]; [lia|reflexivity|lia]).
Qed.

Lemma end_callback_once (l : Listener) :
  registeredAsWritten l = true -> isEndCallback l = true -> once l = true.
Proof.
  unfold registeredAsWritten, isEndCallback.
  destruct (callback l); try discriminate.
  intros H _. now apply andb_true_iff in H.
Qed.

(** On an object whose listeners are registered as written, every end
    callback is either among the listeners that hear the event or among
    those that stay. *)
Lemma endCallbacks_split (e : Emitted) (ls : list Listener) :
  Forall (fun l => registeredAsWritten l = true) ls ->
  endCallbacks ls
  = (endCallbacks (filter (hears e) ls)
     + endCallbacks (filter (fun l => negb (hears e l && once l)) ls))%nat.
Proof.
  induction 1 as [|l ls Hl _ IH]; [reflexivity|].
  unfold endCallbacks in *. cbn [filter].
  destruct (isEndCallback l) eqn:Ei.
  - rewrite (end_callback_once l Hl Ei).
    destruct (hears e l); cbn [andb negb filter]; rewrite ?Ei;
      cbn [length]; lia.
  - destruct (hears e l), (once l); cbn [andb negb filter]; rewrite ?Ei;
      cbn [length]; lia.
Qed.

Lemma emit_sound (s : nat) (e : Emitted) (st : State) :
  Sound st -> Sound (emit MAILBOX surfaced s e st).
Proof.
  intros H. unfold emit.
  set (ls := nth s (sessions st) []).
  set (heard := filter (hears e) ls).
  set (kept := filter (fun l => negb (hears e l && once l)) ls).
  set (st1 := {| sessions := setNth s kept (sessions st); imap := imap st;
                 runs := runs st; timers := timers st; awaits := awaits st;
                 acts := acts st; thrown := thrown st |}).
  assert (Hls : Forall (fun l => registeredAsWritten l = true) ls).
  { unfold ls. destruct (nth_error (sessions st) s) as [x|] eqn:E.
    - rewrite (nth_of_nth_error _ _ [] x E).
      pose proof (sound_listeners _ _ _ _ H) as Hall.
      rewrite Forall_forall in Hall. apply Hall.
      eapply nth_error_In; eassumption.
    - rewrite nth_overflow by (now apply nth_error_None). constructor. }
  assert (H1 : SoundBut (0 + endCallbacks heard) 0 0 st1).
  { destruct H as [G1 G2 G3 G4 G5 G6 G7].
    pose proof (endCallbacks_split e ls Hls) as Hsplit.
    fold heard in Hsplit. fold kept in Hsplit.
    constructor; cbn [st1 sessions imap runs acts];
      rewrite ?setNth_length; try assumption.
    - apply Forall_setNth; [assumption|].
      rewrite Forall_forall in Hls. apply Forall_forall. intros l Hl.
      apply Hls. unfold kept in Hl. now apply filter_In in Hl.
    - destruct (nth_error (sessions st) s) as [x|] eqn:E.
      + pose proof (total_setNth endCallbacks s kept x (sessions st) E) as Ht.
        unfold ls in Hsplit. rewrite (nth_of_nth_error _ _ [] x E) in Hsplit.
        lia.
      + unfold setNth. rewrite E.
        unfold ls in Hsplit.
        rewrite nth_overflow in Hsplit by (now apply nth_error_None).
        change (endCallbacks []) with 0%nat in Hsplit. lia. }
  assert (Hcalls : Sound (fold_left (call MAILBOX surfaced e)
                            (map callback heard) st1))
    by (apply calls_sound; exact H1).
  destruct e as [|err| |]; try exact Hcalls.
  destruct heard as [|l heard'] eqn:Eh; [|exact Hcalls].
  eapply (SoundBut_same _ _ _ (doing [Unhandled s err] st1));
    [reflexivity..|].
  apply doing_sound; [reflexivity..|].
  exact H1.
Qed.

Lemma start_sound (st : State) : Sound st \/ sessions st = [] /\ runs st = []
                                             /\ acts st = [] ->
  Sound (start st).
Proof.
  intros H. unfold start.
  set (st0 := mkState _ _ _ _ _ _ _).
  assert (H0 : SoundBut 0 0 1 st0).
  { destruct H as [[G1 G2 G3 G4 G5 G6 G7]|(Es & Er & Ea)].
    - constructor; cbn [st0 sessions imap runs acts];
        rewrite ?length_app, ?total_app, ?timersOf_app, ?connects_app;
        simpl length; try lia.
      + apply Forall_app. split; [assumption|]. repeat constructor.
      + apply Forall_app. split; [assumption|].
        repeat constructor; simpl; lia.
      + change (total endCallbacks [_]) with 1%nat.
        change (timersOf 5000 [NewImap]) with 0%nat. lia.
      + change (total gaveUp [_]) with 0%nat.
        change (timersOf 10000 [NewImap]) with 0%nat. lia.
      + change (total attemptBound [_]) with 1%nat.
        change (connects [NewImap]) with 0%nat. lia.
    - constructor; cbn [st0 sessions imap runs acts];
        rewrite ?Es, ?Er, ?Ea; simpl;
        first [lia | reflexivity | repeat constructor; lia]. }
  apply (connectAttempt_sound 0 0 0 0 (length (runs st)) 1 []
           (Attempting 1 [])); try lia; try reflexivity; [|exact H0].
  cbn [st0 runs]. rewrite nth_error_app2, Nat.sub_diag by lia. reflexivity.
Qed.

Lemma elapse_sound (i : nat) (st : State) :
  Sound st -> Sound (elapse i st).
Proof.
  intros H. unfold elapse.
  destruct (nth_error (timers st) i) as [[t|]|]; try assumption.
  set (st1 := mkState _ _ _ _ _ _ _).
  assert (H1 : Sound st1)
    by (apply (SoundBut_same _ _ _ st); [reflexivity..|exact H]).
  destruct t as [ms|r ms].
  - apply start_sound. now left.
  - cbn [st1 runs].
    destruct (nth_error (runs st) r) as [[k errs|k errs| |]|] eqn:E;
      try exact H1.
    pose proof (run_inBounds st _ _ _ r _ H E) as Hb. cbn [inBounds] in Hb.
    apply (connectAttempt_sound 0 0 0 1 r (S k) errs (BackingOff k errs));
      try lia; try reflexivity; [exact E|simpl; lia|exact H1].
Qed.

Lemma react_sound (st : State) (i : Input) :
  Sound st -> Sound (react MAILBOX surfaced st i).
Proof.
  intros H. unfold react. destruct (thrown st); [assumption|].
  destruct i as [s e|k|k err|k].
  - now apply emit_sound.
  - now apply elapse_sound.
  - unfold openBoxAnswers.
    destruct (nth_error (awaits st) k) as [[| |]|]; try assumption.
    destruct err as [e|];
      (eapply (SoundBut_same _ _ _ (doing _ st)); [reflexivity..|]);
      (apply doing_sound; [reflexivity..|assumption]).
  - unfold sweepResolves.
    destruct (nth_error (awaits st) k) as [[| |]|]; try assumption.
    eapply (SoundBut_same _ _ _ (listen _ st)); [reflexivity..|].
    apply listen_sound; [repeat constructor|reflexivity|assumption].
Qed.

Lemma reach_sound (inputs : list Input) :
  Sound (reach MAILBOX surfaced inputs).
Proof.
  unfold reach.
  assert (Hboot : Sound boot) by (apply start_sound; right; now repeat split).
  revert Hboot. generalize boot.
  induction inputs as [|i inputs IH]; intros st H; simpl; [assumption|].
  apply IH. now apply react_sound.
Qed.

End SupervisorFacts.

Section SupervisorBounds.

Variable MAILBOX : jsstring.
Variable surfaced : list jsstring -> jsstring.

Lemma call_sessions (e : Emitted) (st : State) (cb : Callback) :
  sessions (call MAILBOX surfaced e st cb) = sessions st
  /\ (thrown (call MAILBOX surfaced e st cb) = thrown st).
Proof.
  destruct cb as [| | |r k|r k|]; cbn [call]; try (split; reflexivity).
  - destruct e; split; reflexivity.
  - destruct (nth_error (runs st) r) as [[k' errs| | |]|];
      try (split; reflexivity).
    destruct (Nat.eqb k k'); split; reflexivity.
  - destruct (nth_error (runs st) r) as [[k' errs| | |]|];
      try (split; reflexivity); destruct e; try (split; reflexivity).
    destruct (Nat.eqb k k'); [|split; reflexivity].
    destruct (k <=? 3)%nat; split; reflexivity.
Qed.

Lemma calls_sessions (e : Emitted) (cbs : list Callback) (st : State) :
  sessions (fold_left (call MAILBOX surfaced e) cbs st) = sessions st.
Proof.
  revert st. induction cbs as [|cb cbs IH]; intros st; simpl; [reflexivity|].
  rewrite IH. apply call_sessions.
Qed.

Lemma error_listener_once (l : Listener) (err : jsstring) :
  registeredAsWritten l = true -> hears (error err) l = true ->
  once l = true.
Proof.
  unfold registeredAsWritten, hears. cbn [nameOf].
  destruct (callback l), (event l); simpl; intros H1 H2;
    try discriminate; assumption.
Qed.

(** After an [error] event an object has no listener for [error] left. *)
Lemma emit_error_leaves_none (s : nat) (e1 e2 : jsstring) (st : State) :
  Sound st ->
  filter (hears (error e2))
    (nth s (sessions (emit MAILBOX surfaced s (error e1) st)) []) = [].
Proof.
  intros H. unfold emit.
  set (ls := nth s (sessions st) []).
  set (kept := filter (fun l => negb (hears (error e1) l && once l)) ls).
  assert (Hls : Forall (fun l => registeredAsWritten l = true) ls).
  { unfold ls. destruct (nth_error (sessions st) s) as [x|] eqn:E.
    - rewrite (nth_of_nth_error _ _ [] x E).
      pose proof (sound_listeners _ _ _ _ H) as Hall.
      rewrite Forall_forall in Hall. apply Hall.
      eapply nth_error_In; eassumption.
    - rewrite nth_overflow by (now apply nth_error_None). constructor. }
  assert (Hkept : filter (hears (error e2)) kept = []).
  { unfold kept. rewrite Forall_forall in Hls.
    clear -Hls. induction ls as [|l ls IH]; [reflexivity|].
    cbn [filter].
    assert (Hrest : forall x, In x ls -> registeredAsWritten x = true)
      by (intros x Hx; apply Hls; now right).
    destruct (hears (error e1) l) eqn:Eh.
    - rewrite (error_listener_once l e1 (Hls l (or_introl eq_refl)) Eh).
      cbn [andb negb]. now apply IH.
    - cbn [andb negb filter].
      change (hears (error e2) l) with (hears (error e1) l). rewrite Eh.
      now apply IH. }
  assert (Hnth : nth s (setNth s kept (sessions st)) [] = kept
                 \/ nth s (setNth s kept (sessions st)) [] = []).
  { destruct (nth_error (sessions st) s) as [x|] eqn:E.
    - left. unfold setNth. rewrite E.
      assert (Hs : (s < length (sessions st))%nat)
        by (apply nth_error_Some; now rewrite E).
      rewrite app_nth2; rewrite length_firstn;
        replace (Nat.min s (length (sessions st))) with s by lia; [|lia].
      now rewrite Nat.sub_diag.
    - right. unfold setNth. rewrite E.
      apply nth_overflow. now apply nth_error_None. }
  destruct (filter (hears (error e1)) ls) as [|l heard];
    cbn [sessions]; [|rewrite calls_sessions; cbn [sessions]];
    destruct Hnth as [-> | ->]; assumption || reflexivity.
Qed.

End SupervisorBounds.

(** X21. Whatever the mail server and the timers do, in every order: the
    restart timers of 5 s that were set are never more than the [Imap]
    objects that were made (the end callback is registered once for each
    object, with [once]), the restart timers of 10 s are never more than
    the calls of [start] (one for each connect that gave up), and there
    are as many objects as calls of [start]. *)
Theorem X21_restart_timers_are_bounded (MAILBOX : jsstring)
    (surfaced : list jsstring -> jsstring) (inputs : list Input) :
  let st := reach MAILBOX surfaced inputs in
  (timersOf 5000 (acts st) <= length (sessions st))%nat
  /\ (timersOf 10000 (acts st) <= length (runs st))%nat
  /\ length (sessions st) = length (runs st).
Proof.
  intros st.
  destruct (reach_sound MAILBOX surfaced inputs)
    as [_ _ _ Hlen Hends Hgave _].
  fold st in Hlen, Hends, Hgave.
  pose proof (total_le gaveUp 1 (runs st)) as Hle.
  split; [lia|]. split; [|exact Hlen].
  assert (total gaveUp (runs st) <= 1 * length (runs st))%nat.
  { apply Hle. intros x _. destruct x; simpl; lia. }
  lia.
Qed.

(** X22. Whatever errors come and whenever the timers fire, the calls of
    [imap.connect] are never more than four for each call of [start] made
    so far. *)
Theorem X22_connects_are_bounded (MAILBOX : jsstring)
    (surfaced : list jsstring -> jsstring) (inputs : list Input) :
  let st := reach MAILBOX surfaced inputs in
  (connects (acts st) <= 4 * length (runs st))%nat.
Proof.
  intros st.
  destruct (reach_sound MAILBOX surfaced inputs)
    as [_ _ Hruns _ _ _ Hconn].
  fold st in Hruns, Hconn.
  assert (total attemptBound (runs st) <= 4 * length (runs st))%nat.
  { apply total_le. rewrite Forall_forall in Hruns.
    intros x Hx. specialize (Hruns x Hx).
    destruct x; simpl in *; lia. }
  lia.
Qed.

(** X23. All listeners for [error] are registered with [once], so the
    first [error] event of an [Imap] object uses them up: a second
    [error] event of the same object that follows it directly finds no
    listener and is thrown, in whatever state the first one came. *)
Theorem X23_second_error_is_unhandled (MAILBOX : jsstring)
    (surfaced : list jsstring -> jsstring) (inputs : list Input)
    (s : nat) (e1 e2 : jsstring) :
  let st := reach MAILBOX surfaced inputs in
  thrown (react MAILBOX surfaced
            (react MAILBOX surfaced st (Emits s (error e1)))
            (Emits s (error e2)))
  = true.
Proof.
  intros st. pose proof (reach_sound MAILBOX surfaced inputs) as Hst.
  fold st in Hst. unfold react at 2.
  destruct (thrown st) eqn:Et; [unfold react; now rewrite Et|].
  unfold react.
  destruct (thrown (emit MAILBOX surfaced s (error e1) st)) eqn:Et1;
    [exact Et1|].
  unfold emit at 1.
  rewrite (emit_error_leaves_none MAILBOX surfaced s e1 e2 st Hst).
  reflexivity.
Qed.

(** X24. A server that answers every connect with an error: the first
    error is logged by the error callback, the connect is called four
    times with waits of 1000, 2000 and 4000 ms, then the failure is logged
    and a restart is set for 10 s later; the errors after the first are
    not logged one by one. *)
Theorem X24_connect_gives_up_after_four (MAILBOX : jsstring)
    (surfaced : list jsstring -> jsstring) (e1 e2 e3 e4 : jsstring) :
  let st := reach MAILBOX surfaced
              [Emits 0 (error e1); Elapses 0;
               Emits 0 (error e2); Elapses 1;
               Emits 0 (error e3); Elapses 2;
               Emits 0 (error e4)] in
  acts st =
    [NewImap; Connect 0;
     LogError (lit "IMAP error: " ++ e1);
     SetTimer 1000; Connect 0;
     SetTimer 2000; Connect 0;
     SetTimer 4000; Connect 0;
     LogError (lit "Failed initial IMAP connect: "
                 ++ surfaced [e1; e2; e3; e4]);
     SetTimer 10000]
  /\ timers st = [None; None; None; Some (RestartIn 10000)]
  /\ runs st = [GaveUp]
  /\ thrown st = false.
Proof. repeat split. Qed.

(** ** The sender, once more *)

(** X25. A server that answers every request with 2xx and a body that is
    not JSON has accepted the message each time, and yet the handler posts
    it four times, with waits of 1000, 2000 and 4000 ms, logs a failed
    send and does not call [markProcessed]: the store is as it was, so the
    next poll that examines the message starts a handler for it again. *)
Theorem X25_accepted_without_json_is_posted_four_times (prog : Program)
    (m : Fetched) (p : ParsedMail) (err : jsstring) (diskOk : bool)
    (w : World) :
  parsed m = Resolved p ->
  truthy (hasProcessed (db w) (uidOf m)) = false ->
  let post := Post (uidOf m)
                (sendRequest (cfg prog) (formatMessage (cfg prog) p))
                (Http2xxNotJson err) in
  let w' := offer prog m (fun _ => Http2xxNotJson err) diskOk w in
  trace w' =
    trace w ++
    [SetTimeout 5000; post; SetTimeout 1000; post; SetTimeout 2000; post;
     SetTimeout 4000; post;
     ConsoleError (lit "Failed to send to Telegram: " ++ err)]
  /\ db w' = db w
  /\ length (tasks (examine prog w' m)) = S (length (tasks w')).
Proof.
  intros Hp Hunseen post w'. unfold w'.
  rewrite (offer_unseen prog m p _ diskOk w Hp Hunseen). cbv zeta.
  unfold sendTelegramMessage, pRetry, sendOptions.
  cbn [pRetryFrom attempt retries factor minTimeout fst snd map retryObs
       task_uid task_message].
  unfold resumes. cbn [tasks db trace]. rewrite nth_error_last.
  cbn [task_phase db trace tasks].
  split; [now rewrite <- !app_assoc|]. split; [reflexivity|].
  unfold examine. rewrite Hp. cbn [db]. rewrite Hunseen.
  cbn [tasks]. rewrite length_app. simpl. lia.
Qed.

(** The twenty-fifth extra on message 7 and an empty array. *)
Lemma X25_accepted_without_json_is_posted_four_times_witness :
  let w := startWorld (storeWith Missing []) in
  let err := lit "Unexpected token < in JSON at position 0" in
  let w' := offer Sample.program (Sample.mailbox 7%N)
              (fun _ => Http2xxNotJson err) true w in
  requestsIn (trace w') = 4%nat
  /\ markCallsIn (trace w') = 0%nat
  /\ db w' = db w.
Proof.
  intros w err w'.
  destruct (X25_accepted_without_json_is_posted_four_times Sample.program
              (Sample.mailbox 7%N) Sample.mail err true w)
    as (Htrace & Hdb & _); [reflexivity | reflexivity |].
  fold w' in Htrace, Hdb. rewrite Htrace.
  split; [reflexivity|]. split; [reflexivity|exact Hdb].
Defined.
